(** * Relevant Segment Extraction: the segment selector of [09_rse.ipynb]

    A shallow embedding of [find_best_segments] and the properties of the
    greedy selection it performs.

    The Python function is duck typed in the chunk values: the only
    operations it applies to them are the builtin [sum] over a slice and the
    comparison [>].  The embedding is therefore written once over a class
    [Numeric] providing these two operations and instantiated at Python's
    [int] (unbounded integers, [Z]) and Python's [float] (IEEE 754 binary64,
    Rocq's primitive floats).  Integer arguments ([max_segment_length],
    [total_max_length], indices) are Python [int]s and are modelled by [Z].
    The two [print] calls have no effect on the result and are left out.

    The second half of the file covers the functions around the selector:
    [chunk_text], [create_embeddings], [SimpleVectorStore],
    [process_document], [calculate_chunk_values], [reconstruct_segments],
    [format_segments_for_context], [rag_with_rse], and
    [chunk_text_with_headers] and [semantic_search] from the second
    notebook stored in the same file. *)

From Stdlib Require Import Ascii String DecimalString.
From Stdlib Require Import ZArith List Bool Lia.
From Stdlib Require Import Sorted Permutation.
From Stdlib Require Import Floats.
Import ListNotations.

Local Open Scope Z_scope.

(** ** Python builtins used by the function *)

(** [range(a, b)]: the integers [a, a+1, ..., b-1]; empty when [b <= a]. *)
Definition range (a b : Z) : list Z :=
  map (fun i => a + Z.of_nat i) (seq 0 (Z.to_nat (b - a))).

(** Normalisation of a slice bound against a sequence of length [n]:
    a negative bound counts from the end, and every bound is clamped to
    [0 .. n]. *)
Definition clamp_index (n i : Z) : Z :=
  if i <? 0 then Z.max 0 (i + n) else Z.min i n.

(** [l[a:b]]. *)
Definition slice {A : Type} (l : list A) (a b : Z) : list A :=
  let n := Z.of_nat (length l) in
  let a' := clamp_index n a in
  let b' := clamp_index n b in
  firstn (Z.to_nat (b' - a')) (skipn (Z.to_nat a') l).

(** The two operations the selector applies to chunk values:
    [sum(xs)] and [x > y]. *)
Class Numeric (V : Type) : Type := {
  py_sum : list V -> V;
  py_gt : V -> V -> bool
}.

(** [>] is a strict order: needed only where a claim speaks of the
    threshold, since [best_score] is raised several times in a round. *)
Class NumericLaws (V : Type) {N : Numeric V} : Prop := {
  py_gt_irrefl : forall x, py_gt x x = false;
  py_gt_trans : forall x y z,
      py_gt x y = true -> py_gt y z = true -> py_gt x z = true
}.

(** A segment is the tuple [(start, end)]. *)
Definition segment : Type := (Z * Z)%type.

(** [sorted(l, key=lambda x: x[0])]: a stable sort on the first component. *)
Fixpoint insert_by_start (x : segment) (l : list segment) : list segment :=
  match l with
  | [] => [x]
  | y :: l' => if fst x <=? fst y then x :: l else y :: insert_by_start x l'
  end.

Definition sorted_by_start (l : list segment) : list segment :=
  fold_right insert_by_start [] l.

(** ** The selector *)

Section Selector.

Context {V : Type} {N : Numeric V}.

(** The arguments of [find_best_segments]. *)
Variable chunk_values : list V.
Variable max_segment_length : Z.
Variable total_max_length : Z.
Variable min_segment_value : V.

(** [any(start >= s[0] and start < s[1] for s in best_segments)] *)
Definition start_in_selected (best_segments : list segment) (start : Z) : bool :=
  existsb (fun s => (start >=? fst s) && (start <? snd s)) best_segments.

(** [any(end > s[0] and end <= s[1] for s in best_segments)] *)
Definition end_in_selected (best_segments : list segment) (end_ : Z) : bool :=
  existsb (fun s => (end_ >? fst s) && (end_ <=? snd s)) best_segments.

(** The pair [(best_score, best_segment)] carried through one round;
    [best_segment] is [None] until a candidate beats the threshold. *)
Definition best : Type := (V * option segment)%type.

(** Body of the inner loop, for one [length]. *)
Definition try_length (best_segments : list segment) (start : Z)
           (b : best) (length : Z) : best :=
  let end_ := start + length in
  if end_in_selected best_segments end_ then b
  else
    let segment_value := py_sum (slice chunk_values start end_) in
    if py_gt segment_value (fst b) then (segment_value, Some (start, end_))
    else b.

(** Body of the outer loop, for one [start]. *)
Definition try_start (best_segments : list segment) (b : best) (start : Z) : best :=
  if start_in_selected best_segments start then b
  else
    fold_left (try_length best_segments start)
              (range 1 (Z.min max_segment_length
                              (Z.of_nat (length chunk_values) - start) + 1))
              b.

(** One round of the search: both [for] loops, from
    [best_score = min_segment_value], [best_segment = None]. *)
Definition search_round (best_segments : list segment) : best :=
  fold_left (try_start best_segments)
            (range 0 (Z.of_nat (length chunk_values)))
            (min_segment_value, None).

(** The variables that live across rounds. *)
Record state : Type := mkState {
  best_segments : list segment;
  segment_scores : list V;
  total_included_chunks : Z
}.

Definition initial_state : state := mkState [] [] 0.

(** The [if best_segment:] branch of the loop body. *)
Definition accept (st : state) (best_score : V) (best_segment : segment) : state :=
  mkState (best_segments st ++ [best_segment])
          (segment_scores st ++ [best_score])
          (total_included_chunks st + (snd best_segment - fst best_segment)).

(** The [while] loop.  [fuel] bounds the number of times the loop
    condition is evaluated; [None] means the bound was reached before the
    loop was left. *)
Fixpoint while_loop (fuel : nat) (st : state) : option state :=
  match fuel with
  | O => None
  | S fuel' =>
      if total_included_chunks st <? total_max_length then
        match search_round (best_segments st) with
        | (best_score, Some best_segment) =>
            while_loop fuel' (accept st best_score best_segment)
        | (_, None) => Some st
        end
      else Some st
  end.

(** The state in which the loop is left. *)
Definition selection (fuel : nat) : option state :=
  while_loop fuel initial_state.

(** The [return] statement: segments sorted by start, scores as they
    were appended. *)
Definition result_of (st : state) : list segment * list V :=
  (sorted_by_start (best_segments st), segment_scores st).

Definition find_best_segments (fuel : nat) : option (list segment * list V) :=
  option_map result_of (selection fuel).

End Selector.

Arguments state V : clear implicits.
Arguments best V : clear implicits.

(** ** Instances *)

(** Python [int]: [sum] is exact. *)
#[export] Instance int_numeric : Numeric Z := {
  py_sum := fun l => fold_left Z.add l 0;
  py_gt := Z.gtb
}.

(** Python [float] on CPython 3.12 and later (the notebook records 3.13.3):
    [sum] starts from the integer [0], and once the running total is a
    float it continues with Neumaier's compensated summation; the
    compensation is added at the end when it is non-zero and finite. *)
Fixpoint neumaier (f_result c : float) (l : list float) : float :=
  match l with
  | [] =>
      if negb (PrimFloat.eqb c 0) && PrimFloat.is_finite c
      then PrimFloat.add f_result c
      else f_result
  | x :: l' =>
      let t := PrimFloat.add f_result x in
      let c' :=
        if PrimFloat.leb (PrimFloat.abs x) (PrimFloat.abs f_result)
        then PrimFloat.add c (PrimFloat.add (PrimFloat.sub f_result t) x)
        else PrimFloat.add c (PrimFloat.add (PrimFloat.sub x t) f_result) in
      neumaier t c' l'
  end.

Definition float_sum (l : list float) : float :=
  match l with
  | [] => 0%float
  | x :: l' => neumaier (PrimFloat.add 0 x) 0 l'
  end.

#[export] Instance float_numeric : Numeric float := {
  py_sum := float_sum;
  py_gt := fun x y => PrimFloat.ltb y x
}.

(** Python [float] before CPython 3.12: [sum] adds from left to right. *)
Definition float_sum_left (l : list float) : float :=
  fold_left PrimFloat.add l 0%float.

Definition float_numeric_left : Numeric float := {|
  py_sum := float_sum_left;
  py_gt := fun x y => PrimFloat.ltb y x
|}.


(** ** The worked scenario of the specification *)

(** The literals of the scenario as binary64 values:
    [0.1], [0.9], [0.15], [0.2], [1.8] and the two neighbours of [1.9]. *)
Definition f0_1 : float := 0x1.999999999999ap-4.
Definition f0_9 : float := 0x1.ccccccccccccdp-1.
Definition f0_15 : float := 0x1.3333333333333p-3.
Definition f0_2 : float := 0x1.999999999999ap-3.
Definition f1_8 : float := 0x1.ccccccccccccdp+0.
Definition f1_9 : float := 0x1.e666666666666p+0.
Definition f1_9_up : float := 0x1.e666666666667p+0.

Definition scenario_values : list float := [f0_1; f0_1; f0_9; f0_9; f0_1].

(** ** Vocabulary of the properties *)

(** The chunk index [i] lies in the half-open range of the segment. *)
Definition covers (s : segment) (i : Z) : Prop := fst s <= i < snd s.

(** No chunk index lies in two segments of the list.  Two segments that
    only touch ([snd a = fst b]) share no index. *)
Definition pairwise_disjoint (l : list segment) : Prop :=
  ForallOrdPairs (fun a b => forall i, ~ (covers a i /\ covers b i)) l.

(** What the two [any(...)] tests of a round establish for a candidate [b]
    against an accepted segment [a]: the start of [b] is not in
    [[start_a, end_a)] and the end of [b] is not in [(start_a, end_a]]. *)
Definition endpoints_outside (a b : segment) : Prop :=
  ~ (fst a <= fst b < snd a) /\ ~ (fst a < snd b <= snd a).

(** Sum of [end - start] over the list. *)
Definition total_length (l : list segment) : Z :=
  fold_right (fun s acc => (snd s - fst s) + acc) 0 l.

(** Strictly ascending starts. *)
Definition ascending_starts (l : list segment) : Prop :=
  StronglySorted (fun a b => fst a < fst b) l.

(** A segment over [n] chunks that respects the per-segment cap. *)
Definition well_formed (n max_len : Z) (s : segment) : Prop :=
  0 <= fst s /\ fst s < snd s /\ snd s <= n /\ snd s - fst s <= max_len.

(** How a call can end: by its [return] statement or by raising a failure
    of some kind.  The body of [find_best_segments] has no argument check
    and no [raise]. *)
Inductive failure : Type := InvalidArgument.

Inductive outcome (R : Type) : Type :=
| Returned (r : R)
| Raised (e : failure).

Arguments Returned {R} r.
Arguments Raised {R} e.

Definition selector_outcome {V : Type} {N : Numeric V}
           (chunk_values : list V) (max_segment_length total_max_length : Z)
           (min_segment_value : V) (fuel : nat)
  : option (outcome (list segment * list V)) :=
  option_map Returned
    (find_best_segments chunk_values max_segment_length total_max_length
                        min_segment_value fuel).

(** What a round carries after any number of candidates: either nothing
    was found and [best_score] is still the threshold, or [best_segment] is
    a candidate the two [any(...)] tests let through and [best_score] is
    its sum. *)
Definition candidate_ok {V : Type} {N : Numeric V}
           (chunk_values : list V) (max_segment_length : Z)
           (min_segment_value : V) (accepted : list segment) (b : best V) : Prop :=
  match snd b with
  | None => fst b = min_segment_value
  | Some seg =>
      well_formed (Z.of_nat (length chunk_values)) max_segment_length seg /\
      start_in_selected accepted (fst seg) = false /\
      end_in_selected accepted (snd seg) = false /\
      fst b = py_sum (slice chunk_values (fst seg) (snd seg))
  end.

Definition above_threshold {V : Type} {N : Numeric V}
           (min_segment_value : V) (b : best V) : Prop :=
  match snd b with
  | None => fst b = min_segment_value
  | Some _ => py_gt (fst b) min_segment_value = true
  end.

(** The score recorded for a segment is the sum of its slice. *)
Definition score_of {V : Type} {N : Numeric V}
           (chunk_values : list V) (seg : segment) (score : V) : Prop :=
  score = py_sum (slice chunk_values (fst seg) (snd seg)).

(** Invariant of the [while] loop that needs no assumption on the
    arguments. *)
Definition state_ok {V : Type} {N : Numeric V}
           (chunk_values : list V) (max_segment_length : Z) (st : state V) : Prop :=
  Forall (well_formed (Z.of_nat (length chunk_values)) max_segment_length)
         (best_segments st) /\
  total_included_chunks st = total_length (best_segments st) /\
  Forall2 (score_of chunk_values) (best_segments st) (segment_scores st) /\
  NoDup (map fst (best_segments st)).

(** No window the first round looks at scores above the threshold. *)
Definition no_candidate_exceeds {V : Type} {N : Numeric V}
           (chunk_values : list V) (max_segment_length : Z)
           (min_segment_value : V) : Prop :=
  forall start end_,
    0 <= start -> start < end_ -> end_ <= Z.of_nat (length chunk_values) ->
    end_ - start <= max_segment_length ->
    py_gt (py_sum (slice chunk_values start end_)) min_segment_value = false.

(** ** The rest of the notebook: chunking, embedding batches, the vector
    store, chunk values and the reconstruction of segments

    Calls that leave the notebook (the PDF reader, the embedding and chat
    endpoints, numpy's cosine expression, [list.sort]) are parameters of the
    functions that make them. *)

(** Exceptions the modelled statements can raise. *)
Inductive py_exception : Type := ValueError | IndexError | KeyError.

Inductive py_result (A : Type) : Type :=
| Ok (a : A)
| Raise (e : py_exception).

Arguments Ok {A} a.
Arguments Raise {A} e.

Definition bind {A B : Type} (r : py_result A) (k : A -> py_result B)
  : py_result B :=
  match r with
  | Ok a => k a
  | Raise e => Raise e
  end.

Notation "x <- r ;; k" := (bind r (fun x => k))
  (at level 61, r at next level, right associativity).

(** Python [str]: a sequence of characters. *)
Definition str : Type := list ascii.

(** A [str] literal. *)
Definition lit (s : string) : str := list_ascii_of_string s.

(** [str(i)] for an [int], as an f-string formats it. *)
Definition str_of_int (i : Z) : str :=
  list_ascii_of_string (NilZero.string_of_int (Z.to_int i)).

Fixpoint str_eqb (a b : str) : bool :=
  match a, b with
  | [], [] => true
  | x :: a', y :: b' => Ascii.eqb x y && str_eqb a' b'
  | _, _ => false
  end.

(** [sep.join(parts)] *)
Fixpoint join {A : Type} (sep : list A) (parts : list (list A)) : list A :=
  match parts with
  | [] => []
  | p :: rest =>
      match rest with
      | [] => p
      | _ :: _ => p ++ sep ++ join sep rest
      end
  end.

(** [l[i]]: a negative index counts from the end; outside the list it
    raises [IndexError]. *)
Definition list_get {A : Type} (l : list A) (i : Z) : py_result A :=
  let n := Z.of_nat (length l) in
  let i' := if i <? 0 then i + n else i in
  if (0 <=? i') && (i' <? n) then
    match nth_error l (Z.to_nat i') with
    | Some a => Ok a
    | None => Raise IndexError
    end
  else Raise IndexError.

(** [enumerate(l)] *)
Definition enumerate {A : Type} (l : list A) : list (Z * A) :=
  combine (range 0 (Z.of_nat (length l))) l.

(** [zip(a, b, c)]: stops with the shortest argument. *)
Fixpoint zip3 {A B C : Type} (a : list A) (b : list B) (c : list C)
  : list (A * B * C) :=
  match a, b, c with
  | x :: a', y :: b', z :: c' => (x, y, z) :: zip3 a' b' c'
  | _, _, _ => []
  end.

(** [len(range(start, stop, step))] for a non-zero step. *)
Definition range_length (start stop step : Z) : Z :=
  if 0 <? step then
    if start <? stop then (stop - start - 1) / step + 1 else 0
  else
    if stop <? start then (start - stop - 1) / (- step) + 1 else 0.

Definition range_elements (start stop step : Z) : list Z :=
  map (fun k => start + Z.of_nat k * step)
      (seq 0 (Z.to_nat (range_length start stop step))).

(** [range(start, stop, step)]: a zero step raises [ValueError]. *)
Definition range_step (start stop step : Z) : py_result (list Z) :=
  if step =? 0 then Raise ValueError
  else Ok (range_elements start stop step).

(** A [dict]: an association list in which a later binding of a key
    shadows the earlier ones. *)
Definition dict (K W : Type) : Type := list (K * W).

Definition dict_set {K W : Type} (d : dict K W) (k : K) (w : W) : dict K W :=
  (k, w) :: d.

(** [d.get(k)], [None] when the key is missing. *)
Fixpoint dict_find {K W : Type} (eqb : K -> K -> bool) (d : dict K W) (k : K)
  : option W :=
  match d with
  | [] => None
  | (k', w) :: d' => if eqb k' k then Some w else dict_find eqb d' k
  end.

(** [d[k]] *)
Definition dict_item {K W : Type} (eqb : K -> K -> bool) (d : dict K W) (k : K)
  : py_result W :=
  match dict_find eqb d k with
  | Some w => Ok w
  | None => Raise KeyError
  end.

(** [d.get(k, default)] *)
Definition dict_get_default {K W : Type} (eqb : K -> K -> bool) (d : dict K W)
           (k : K) (default : W) : W :=
  match dict_find eqb d k with
  | Some w => w
  | None => default
  end.

(** Values stored in the metadata of a document: the chunk index and the
    source path. *)
Inductive meta_value : Type :=
| MInt (i : Z)
| MStr (s : str).

Definition meta_value_eqb (a b : meta_value) : bool :=
  match a, b with
  | MInt i, MInt j => i =? j
  | MStr s, MStr t => str_eqb s t
  | _, _ => false
  end.

Definition metadata_dict : Type := dict str meta_value.

(** *** [chunk_text] *)

(** [text] is any sequence that can be sliced, a [str] in the notebook. *)
Definition chunk_text {A : Type} (text : list A) (chunk_size overlap : Z)
  : py_result (list (list A)) :=
  indices <- range_step 0 (Z.of_nat (length text)) (chunk_size - overlap) ;;
  Ok (fold_left
        (fun chunks i =>
           let chunk := slice text i (i + chunk_size) in
           match chunk with
           | [] => chunks
           | _ :: _ => chunks ++ [chunk]
           end)
        indices []).

(** *** [chunk_text_with_headers] (the second notebook of the file) *)

(** The dict [{"header": ..., "text": ...}]. *)
Record header_chunk : Type := mkHeaderChunk {
  header : str;
  chunk_body : str
}.

Section Headers.

(** The chat completion that titles a chunk. *)
Variable generate_chunk_header : str -> str.

Definition chunk_text_with_headers (text : str) (n overlap : Z)
  : py_result (list header_chunk) :=
  indices <- range_step 0 (Z.of_nat (length text)) (n - overlap) ;;
  Ok (fold_left
        (fun chunks i =>
           let chunk := slice text i (i + n) in
           let header := generate_chunk_header chunk in
           chunks ++ [mkHeaderChunk header chunk])
        indices []).

End Headers.

(** *** [create_embeddings] *)

Section Embeddings.

Context {Vec : Type}.

(** One call of the embedding endpoint on a batch, reduced to
    [[item.embedding for item in response.data]]. *)
Variable embed_batch : list str -> list Vec.

Definition create_embeddings (texts : list str) : list Vec :=
  match texts with
  | [] => []
  | _ :: _ =>
      let batch_size := 100 in
      fold_left
        (fun all_embeddings i =>
           let batch := slice texts i (i + batch_size) in
           all_embeddings ++ embed_batch batch)
        (range_elements 0 (Z.of_nat (length texts)) batch_size) []
  end.

End Embeddings.

(** *** [SimpleVectorStore] *)

(** The attributes of a store.  A stored vector may be [None]. *)
Record SimpleVectorStore (Vec : Type) : Type := mkStore {
  dimension : Z;
  vectors : list (option Vec);
  documents : list str;
  metadata : list metadata_dict
}.

Arguments mkStore {Vec} dimension vectors documents metadata.
Arguments dimension {Vec} s.
Arguments vectors {Vec} s.
Arguments documents {Vec} s.
Arguments metadata {Vec} s.

(** The dict [{"document": ..., "score": ..., "metadata": ...}] of a
    search result. *)
Record search_result : Type := mkResult {
  document : str;
  score : float;
  result_metadata : metadata_dict
}.

(** [list.sort(key=lambda x: x[1], reverse=True)] on floats whose [<] is a
    strict weak order (no NaN): the stable descending order. *)
Fixpoint insert_desc (x : Z * float) (l : list (Z * float)) : list (Z * float) :=
  match l with
  | [] => [x]
  | y :: l' =>
      if PrimFloat.ltb (snd x) (snd y) then y :: insert_desc x l' else x :: l
  end.

Definition stable_sort_desc (l : list (Z * float)) : list (Z * float) :=
  fold_right insert_desc [] l.

Section VectorStore.

Context {Vec : Type}.

(** [SimpleVectorStore(dimension)] *)
Definition new_store (dimension : Z) : SimpleVectorStore Vec :=
  mkStore dimension [] [] [].

(** [add_documents(documents, vectors, metadata)]; an argument left at its
    default [None] is [None] here. *)
Definition add_documents (self : SimpleVectorStore Vec)
           (documents_ : list str)
           (vectors_ : option (list (option Vec)))
           (metadata_ : option (list metadata_dict)) : SimpleVectorStore Vec :=
  let vectors_ :=
    match vectors_ with
    | None => repeat None (length documents_)
    | Some v => v
    end in
  let metadata_ :=
    match metadata_ with
    | None => map (fun _ => []) (range 0 (Z.of_nat (length documents_)))
    | Some m => m
    end in
  fold_left
    (fun (self : SimpleVectorStore Vec) '(doc, vec, meta) =>
       mkStore (dimension self)
               (vectors self ++ [vec])
               (documents self ++ [doc])
               (metadata self ++ [meta]))
    (zip3 documents_ vectors_ metadata_) self.

(** The numpy expression
    [np.dot(q, v) / (np.linalg.norm(q) * np.linalg.norm(v))], converted by
    [float(...)]. *)
Variable cosine : Vec -> Vec -> float.

(** [similarities.sort(key=lambda x: x[1], reverse=True)] *)
Variable sort_desc : list (Z * float) -> list (Z * float).

(** [search(query_vector, top_k)] *)
Definition search (self : SimpleVectorStore Vec) (query_vector : Vec)
           (top_k : Z) : py_result (list search_result) :=
  match vectors self, documents self with
  | [], _ | _, [] => Ok []
  | _ :: _, _ :: _ =>
      let similarities :=
        fold_left
          (fun similarities '(i, vector) =>
             match vector with
             | Some v => similarities ++ [(i, cosine query_vector v)]
             | None => similarities
             end)
          (enumerate (vectors self)) [] in
      let similarities := sort_desc similarities in
      fold_left
        (fun results '(i, score) =>
           results <- results ;;
           doc <- list_get (documents self) i ;;
           meta <- list_get (metadata self) i ;;
           Ok (results ++ [mkResult doc score meta]))
        (slice similarities 0 top_k) (Ok [])
  end.

(** The embedding endpoint, as in [create_embeddings]. *)
Variable embed_batch : list str -> list Vec.

(** [calculate_chunk_values(query, chunks, vector_store,
    irrelevant_chunk_penalty)] *)
Definition calculate_chunk_values (query : str) (chunks : list str)
           (vector_store : SimpleVectorStore Vec)
           (irrelevant_chunk_penalty : float) : py_result (list float) :=
  query_embedding <- list_get (create_embeddings embed_batch [query]) 0 ;;
  let num_chunks := Z.of_nat (length chunks) in
  results <- search vector_store query_embedding num_chunks ;;
  relevance_scores <-
    fold_left
      (fun relevance_scores result =>
         relevance_scores <- relevance_scores ;;
         chunk_index <- dict_item str_eqb (result_metadata result)
                                  (lit "chunk_index") ;;
         Ok (dict_set relevance_scores chunk_index (score result)))
      results (Ok []) ;;
  Ok (fold_left
        (fun chunk_values i =>
           let score :=
             dict_get_default meta_value_eqb relevance_scores (MInt i) 0%float in
           let value := PrimFloat.sub score irrelevant_chunk_penalty in
           chunk_values ++ [value])
        (range 0 num_chunks) []).

(** The PDF reader. *)
Variable extract_text_from_pdf : str -> str.

(** [process_document(pdf_path, chunk_size)]; the dict [doc_info] is the
    pair of its two values. *)
Definition process_document (pdf_path : str) (chunk_size : Z)
  : py_result (list str * SimpleVectorStore Vec * (list str * str)) :=
  let text := extract_text_from_pdf pdf_path in
  chunks <- chunk_text text chunk_size 0 ;;
  let chunk_embeddings := create_embeddings embed_batch chunks in
  let vector_store := new_store 1536 in
  let metadata_ :=
    map (fun i => dict_set (dict_set [] (lit "chunk_index") (MInt i))
                           (lit "source") (MStr pdf_path))
        (range 0 (Z.of_nat (length chunks))) in
  let vector_store :=
    add_documents vector_store chunks
                  (Some (map Some chunk_embeddings)) (Some metadata_) in
  let doc_info := (chunks, pdf_path) in
  Ok (chunks, vector_store, doc_info).

End VectorStore.

(** *** [reconstruct_segments] and [format_segments_for_context] *)

(** The dict [{"text": ..., "segment_range": ...}]. *)
Record reconstructed_segment : Type := mkSegment {
  text : str;
  segment_range : segment
}.

Definition reconstruct_segments (chunks : list str)
           (best_segments : list segment) : list reconstructed_segment :=
  fold_left
    (fun reconstructed_segments '(start, end_) =>
       let segment_text := join (lit " ") (slice chunks start end_) in
       reconstructed_segments ++ [mkSegment segment_text (start, end_)])
    best_segments [].

(** The f-string
    [f"SEGMENT {i+1} (Chunks {range[0]}-{range[1]-1}):"]. *)
Definition segment_header (i : Z) (s : reconstructed_segment) : str :=
  lit "SEGMENT " ++ str_of_int (i + 1) ++ lit " (Chunks "
      ++ str_of_int (fst (segment_range s)) ++ lit "-"
      ++ str_of_int (snd (segment_range s) - 1) ++ lit "):".

Definition format_segments_for_context (segments : list reconstructed_segment)
  : str :=
  let context :=
    fold_left
      (fun context '(i, segment) =>
         context ++ [segment_header i segment; text segment;
                     repeat "-"%char 80])
      (enumerate segments) [] in
  join [ "010"%char; "010"%char ] context.

(** *** Vocabulary for the rest of the notebook *)

(** For values that compare like numbers: a value not above [y] is not
    above anything that is above [y].  It holds for [int] and for [float],
    NaN included. *)
Class NumericTotal (V : Type) {N : Numeric V} : Prop := {
  py_gt_not_above : forall x y z,
      py_gt x y = false -> py_gt z y = true -> py_gt x z = false
}.

(** A window a round scores: inside the chunk list, within the per-segment
    cap, and let through by the two [any(...)] tests. *)
Definition admissible {V : Type} (chunk_values : list V)
           (max_segment_length : Z) (accepted : list segment) (w : segment)
  : Prop :=
  well_formed (Z.of_nat (length chunk_values)) max_segment_length w /\
  start_in_selected accepted (fst w) = false /\
  end_in_selected accepted (snd w) = false.

(** The three lists of a store have one entry per stored document. *)
Definition aligned {Vec : Type} (s : SimpleVectorStore Vec) : Prop :=
  length (vectors s) = length (documents s) /\
  length (metadata s) = length (documents s).


(** The chunks [chunk_text] cuts when both the size and the stride are
    positive: window [k] starts at [k * stride]. *)
Definition windows {A : Type} (text : list A) (size stride count : nat)
  : list (list A) :=
  map (fun k => firstn size (skipn (k * stride) text)) (seq 0 count).

(** The truth value of a sequence, as in [if chunk:]. *)
Definition nonempty {A : Type} (l : list A) : bool :=
  match l with
  | [] => false
  | _ :: _ => true
  end.

(** The list [similarities] of [search] before it is sorted: one pair per
    stored vector that is not [None], in index order. *)
Definition similarity_list {Vec : Type} (cosine : Vec -> Vec -> float)
           (s : SimpleVectorStore Vec) (query_vector : Vec) : list (Z * float) :=
  flat_map (fun p : Z * option Vec =>
              match snd p with
              | Some v => [(fst p, cosine query_vector v)]
              | None => []
              end)
           (enumerate (vectors s)).

(** The result dict [search] builds for the pair [(i, score)]. *)
Definition result_at {Vec : Type} (s : SimpleVectorStore Vec) (p : Z * float)
  : search_result :=
  mkResult (nth (Z.to_nat (fst p)) (documents s) [])
           (snd p)
           (nth (Z.to_nat (fst p)) (metadata s) []).

(** The metadata dict [{"chunk_index": i, "source": pdf_path}]. *)
Definition chunk_metadata (pdf_path : str) (i : Z) : metadata_dict :=
  dict_set (dict_set [] (lit "chunk_index") (MInt i))
           (lit "source") (MStr pdf_path).

(** The store that holds each chunk with its own embedding and its own
    index. *)
Definition store_of_chunks {Vec : Type} (embed : str -> Vec) (pdf_path : str)
           (chunks : list str) : SimpleVectorStore Vec :=
  mkStore 1536
          (map (fun chunk => Some (embed chunk)) chunks)
          chunks
          (map (chunk_metadata pdf_path)
               (range 0 (Z.of_nat (length chunks)))).

(** *** [rag_with_rse] *)

(** The dict [{"query": ..., "segments": ..., "response": ...}]. *)
Record rse_result : Type := mkRseResult {
  result_query : str;
  result_segments : list reconstructed_segment;
  result_response : str
}.

Section Rag.

Context {Vec : Type}.
Variable cosine : Vec -> Vec -> float.
Variable sort_desc : list (Z * float) -> list (Z * float).
Variable embed_batch : list str -> list Vec.
Variable extract_text_from_pdf : str -> str.

(** The chat completion of [generate_response(query, context)]. *)
Variable generate_response : str -> str -> str.

(** [rag_with_rse(pdf_path, query, chunk_size, irrelevant_chunk_penalty)].
    The chunk values are Python floats; [fuel] is the fuel of the selection
    loop, and [None] means it ran out. *)
Definition rag_with_rse (fuel : nat) (pdf_path query : str) (chunk_size : Z)
           (irrelevant_chunk_penalty : float) : option (py_result rse_result) :=
  match process_document embed_batch extract_text_from_pdf pdf_path chunk_size
  with
  | Raise e => Some (Raise e)
  | Ok (chunks, vector_store, doc_info) =>
      match calculate_chunk_values cosine sort_desc embed_batch query chunks
                                   vector_store irrelevant_chunk_penalty
      with
      | Raise e => Some (Raise e)
      | Ok chunk_values =>
          match find_best_segments (N := float_numeric)
                                   chunk_values 20 30 f0_2 fuel
          with
          | None => None
          | Some (best_segments, scores) =>
              let segments := reconstruct_segments chunks best_segments in
              let context := format_segments_for_context segments in
              let response := generate_response query context in
              Some (Ok (mkRseResult query segments response))
          end
      end
  end.

End Rag.

(** *** [semantic_search] (the second notebook of the file) *)

(** An entry of the list [embeddings]: the dict with the keys ["header"],
    ["text"], ["embedding"] and ["header_embedding"]. *)
Record embedded_chunk {Vec : Type} : Type := mkEmbeddedChunk {
  chunk_header : str;
  chunk_text_of : str;
  embedding : Vec;
  header_embedding : Vec
}.

Arguments embedded_chunk Vec : clear implicits.
Arguments mkEmbeddedChunk {Vec} chunk_header chunk_text_of embedding header_embedding.

Section SemanticSearch.

Context {Vec : Type}.

(** [create_embeddings(text)] of the second notebook: one call of the
    embedding endpoint on one text. *)
Variable create_embedding : str -> Vec.

(** [cosine_similarity(np.array(a), np.array(b))] *)
Variable cosine_similarity : Vec -> Vec -> float.

(** [similarities.sort(key=lambda x: x[1], reverse=True)] *)
Variable sort_chunks_desc :
  list (embedded_chunk Vec * float) -> list (embedded_chunk Vec * float).

Definition semantic_search (query : str) (chunks : list (embedded_chunk Vec))
           (k : Z) : list (embedded_chunk Vec) :=
  let query_embedding := create_embedding query in
  let similarities :=
    fold_left
      (fun similarities chunk =>
         let sim_text := cosine_similarity query_embedding (embedding chunk) in
         let sim_header :=
           cosine_similarity query_embedding (header_embedding chunk) in
         let avg_similarity :=
           PrimFloat.div (PrimFloat.add sim_text sim_header) 2 in
         similarities ++ [(chunk, avg_similarity)])
      chunks [] in
  let similarities := sort_chunks_desc similarities in
  map fst (slice similarities 0 k).

End SemanticSearch.

(** The stable descending order on the second component, for any first
    component (as [stable_sort_desc]). *)
Fixpoint insert_by_score {A : Type} (x : A * float) (l : list (A * float))
  : list (A * float) :=
  match l with
  | [] => [x]
  | y :: l' =>
      if PrimFloat.ltb (snd x) (snd y) then y :: insert_by_score x l'
      else x :: l
  end.

Definition stable_sort_by_score {A : Type} (l : list (A * float))
  : list (A * float) :=
  fold_right insert_by_score [] l.

(** ** Builtins *)

Lemma in_range (a b x : Z) : In x (range a b) <-> a <= x < b.
Proof.
  unfold range. rewrite in_map_iff. split.
  - intros (i & <- & Hi). apply in_seq in Hi. lia.
  - intros Hx. exists (Z.to_nat (x - a)). split; [lia|].
    apply in_seq. lia.
Qed.

Lemma fold_left_invariant {A B : Type} (f : A -> B -> A) (P : A -> Prop)
      (l : list B) :
  (forall a x, In x l -> P a -> P (f a x)) ->
  forall a, P a -> P (fold_left f l a).
Proof.
  induction l as [|y l IH]; intros Hstep a Ha; simpl; [exact Ha|].
  apply IH.
  - intros a' x Hx. apply Hstep. now right.
  - apply Hstep; [now left | exact Ha].
Qed.

Lemma ForallOrdPairs_snoc {A : Type} (R : A -> A -> Prop) (l : list A) (x : A) :
  ForallOrdPairs R l -> Forall (fun a => R a x) l ->
  ForallOrdPairs R (l ++ [x]).
Proof.
  induction 1 as [|a l Ha Hl IH]; intros Hx; simpl.
  - repeat constructor.
  - inversion Hx; subst. constructor; [|now apply IH].
    apply Forall_app. split; [exact Ha | now constructor].
Qed.

(** With both endpoints of [b] outside [a], the two can share a chunk only
    if [b] strictly encloses [a]. *)
Lemma shared_chunk_is_enclosure (a b : segment) (i : Z) :
  endpoints_outside a b -> covers a i -> covers b i ->
  fst b < fst a /\ snd a < snd b.
Proof.
  unfold endpoints_outside, covers. lia.
Qed.

Lemma total_length_app (l : list segment) (s : segment) :
  total_length (l ++ [s]) = total_length l + (snd s - fst s).
Proof.
  unfold total_length.
  induction l as [|y l IH]; simpl; [lia | rewrite IH; lia].
Qed.

(** ** Sorting *)

Lemma insert_by_start_perm (x : segment) (l : list segment) :
  Permutation (x :: l) (insert_by_start x l).
Proof.
  induction l as [|y l IH]; simpl; [reflexivity|].
  destruct (fst x <=? fst y); [reflexivity|].
  rewrite perm_swap. now apply perm_skip.
Qed.

Lemma sorted_by_start_perm (l : list segment) :
  Permutation l (sorted_by_start l).
Proof.
  induction l as [|x l IH]; simpl; [constructor|].
  rewrite <- insert_by_start_perm. now apply perm_skip.
Qed.

Lemma insert_by_start_sorted (x : segment) (l : list segment) :
  StronglySorted (fun a b => fst a <= fst b) l ->
  StronglySorted (fun a b => fst a <= fst b) (insert_by_start x l).
Proof.
  induction 1 as [|y l Hl IH Hy]; simpl.
  - repeat constructor.
  - destruct (fst x <=? fst y) eqn:E.
    + apply Z.leb_le in E. constructor; [now constructor|].
      constructor; [exact E|].
      eapply Forall_impl; [|exact Hy]. simpl. intros; lia.
    + apply Z.leb_gt in E. constructor; [exact IH|].
      eapply Permutation_Forall; [apply insert_by_start_perm|].
      constructor; [lia | exact Hy].
Qed.

Lemma sorted_by_start_sorted (l : list segment) :
  StronglySorted (fun a b => fst a <= fst b) (sorted_by_start l).
Proof.
  induction l as [|x l IH]; simpl; [constructor|].
  now apply insert_by_start_sorted.
Qed.

Lemma sorted_distinct_ascending (l : list segment) :
  StronglySorted (fun a b => fst a <= fst b) l ->
  NoDup (map fst l) ->
  ascending_starts l.
Proof.
  induction 1 as [|x l Hl IH Hx]; simpl; intros Hnd; [constructor|].
  inversion Hnd as [|? ? Hnotin Hnd']; subst.
  constructor; [now apply IH|].
  rewrite Forall_forall in *. intros y Hy.
  specialize (Hx y Hy).
  assert (fst x <> fst y) by (intros E; apply Hnotin; rewrite E; now apply in_map).
  lia.
Qed.

Lemma sorted_by_start_ascending (l : list segment) :
  NoDup (map fst l) -> ascending_starts (sorted_by_start l).
Proof.
  intros Hnd. apply sorted_distinct_ascending.
  - apply sorted_by_start_sorted.
  - eapply Permutation_NoDup; [|exact Hnd].
    apply Permutation_map, sorted_by_start_perm.
Qed.

Lemma ascending_starts_NoDup (l : list segment) :
  ascending_starts l -> NoDup l.
Proof.
  induction 1 as [|x l Hl IH Hx]; constructor; [|exact IH].
  intros Hin. rewrite Forall_forall in Hx. specialize (Hx x Hin). lia.
Qed.

(** ** One round of the search *)

Section Round.

Context {V : Type} {N : Numeric V}.
Variable chunk_values : list V.
Variable max_segment_length : Z.
Variable min_segment_value : V.
Variable accepted : list segment.

Local Abbreviation n_chunks := (Z.of_nat (length chunk_values)).
Local Abbreviation ok :=
  (candidate_ok chunk_values max_segment_length min_segment_value accepted).

Lemma try_length_ok (start len : Z) (b : best V) :
  0 <= start < n_chunks ->
  1 <= len < Z.min max_segment_length (n_chunks - start) + 1 ->
  start_in_selected accepted start = false ->
  ok b -> ok (try_length chunk_values accepted start b len).
Proof.
  intros Hs Hl Hfree Hb. unfold try_length.
  destruct (end_in_selected accepted (start + len)) eqn:Eend; [exact Hb|].
  destruct (py_gt _ (fst b)); [|exact Hb].
  unfold candidate_ok, well_formed; simpl.
  repeat split; try lia; assumption.
Qed.

Lemma try_start_ok (start : Z) (b : best V) :
  0 <= start < n_chunks ->
  ok b -> ok (try_start chunk_values max_segment_length accepted b start).
Proof.
  intros Hs Hb. unfold try_start.
  destruct (start_in_selected accepted start) eqn:Estart; [exact Hb|].
  apply fold_left_invariant; [|exact Hb].
  intros a len Hlen Ha. apply in_range in Hlen.
  now apply try_length_ok.
Qed.

Lemma search_round_ok :
  ok (search_round chunk_values max_segment_length min_segment_value accepted).
Proof.
  unfold search_round. apply fold_left_invariant.
  - intros a start Hstart Ha. apply in_range in Hstart.
    now apply try_start_ok.
  - reflexivity.
Qed.

(** What the loop body learns from a round that found a segment. *)
Lemma search_round_found (score : V) (seg : segment) :
  search_round chunk_values max_segment_length min_segment_value accepted
  = (score, Some seg) ->
  well_formed n_chunks max_segment_length seg /\
  start_in_selected accepted (fst seg) = false /\
  end_in_selected accepted (snd seg) = false /\
  score_of chunk_values seg score.
Proof.
  intros E. pose proof search_round_ok as H.
  rewrite E in H. exact H.
Qed.

(** With a transitive [>], every value [best_score] takes after the
    first update is above the threshold. *)
Lemma search_round_above {L : NumericLaws V} :
  above_threshold min_segment_value
    (search_round chunk_values max_segment_length min_segment_value accepted).
Proof.
  unfold search_round. apply fold_left_invariant; [|reflexivity].
  intros a start _ Ha. unfold try_start.
  destruct (start_in_selected accepted start); [exact Ha|].
  apply fold_left_invariant; [|exact Ha].
  intros b len _ Hb. unfold try_length.
  destruct (end_in_selected accepted (start + len)); [exact Hb|].
  destruct (py_gt _ (fst b)) eqn:Egt; [|exact Hb].
  unfold above_threshold in *. simpl.
  destruct (snd b).
  - eapply py_gt_trans; eassumption.
  - now rewrite <- Hb.
Qed.

(** If no window scores above the threshold, the round finds nothing. *)
Lemma search_round_nothing :
  accepted = [] ->
  no_candidate_exceeds chunk_values max_segment_length min_segment_value ->
  search_round chunk_values max_segment_length min_segment_value accepted
  = (min_segment_value, None).
Proof.
  intros -> Hno. unfold search_round.
  apply fold_left_invariant; [|reflexivity].
  intros a start Hstart ->. apply in_range in Hstart.
  unfold try_start. simpl.
  apply fold_left_invariant; [|reflexivity].
  intros b len Hlen ->. apply in_range in Hlen.
  unfold try_length. simpl.
  rewrite Hno by lia. reflexivity.
Qed.

(** With a non-positive [max_segment_length] the inner [range] is empty
    for every start. *)
Lemma search_round_no_length :
  max_segment_length <= 0 ->
  search_round chunk_values max_segment_length min_segment_value accepted
  = (min_segment_value, None).
Proof.
  intros HM. unfold search_round.
  apply fold_left_invariant; [|reflexivity].
  intros a start Hstart ->. unfold try_start.
  destruct (start_in_selected accepted start); [reflexivity|].
  apply fold_left_invariant; [|reflexivity].
  intros b len Hlen _. apply in_range in Hlen. lia.
Qed.

End Round.

(** ** The loop *)

Section Loop.

Context {V : Type} {N : Numeric V}.
Variable chunk_values : list V.
Variable max_segment_length total_max_length : Z.
Variable min_segment_value : V.

Local Abbreviation n_chunks := (Z.of_nat (length chunk_values)).
Local Abbreviation search :=
  (search_round chunk_values max_segment_length min_segment_value).
Local Abbreviation loop :=
  (while_loop chunk_values max_segment_length total_max_length
              min_segment_value).

(** Invariant rule for the [while] loop: [P] is kept by every round that
    starts below the total cap and finds a segment. *)
Lemma while_loop_invariant (P : state V -> Prop) :
  (forall st score seg,
      P st ->
      total_included_chunks st < total_max_length ->
      search (best_segments st) = (score, Some seg) ->
      P (accept st score seg)) ->
  forall fuel st st', P st -> loop fuel st = Some st' -> P st'.
Proof.
  intros Hstep. induction fuel as [|fuel IH]; intros st st' HP; simpl.
  - discriminate.
  - destruct (total_included_chunks st <? total_max_length) eqn:Elt.
    + apply Z.ltb_lt in Elt.
      destruct (search (best_segments st)) as [score [seg|]] eqn:Es.
      * apply IH. eapply Hstep; eassumption.
      * now intros [= <-].
    + now intros [= <-].
Qed.

(** The loop is left only through its condition or its [break]. *)
Lemma while_loop_exit (fuel : nat) (st st' : state V) :
  loop fuel st = Some st' ->
  total_max_length <= total_included_chunks st' \/
  snd (search (best_segments st')) = None.
Proof.
  revert st. induction fuel as [|fuel IH]; intros st; simpl.
  - discriminate.
  - destruct (total_included_chunks st <? total_max_length) eqn:Elt.
    + destruct (search (best_segments st)) as [score [seg|]] eqn:Es.
      * apply IH.
      * intros [= <-]. right. now rewrite Es.
    + intros [= <-]. left. now apply Z.ltb_ge.
Qed.

(** More fuel does not change the state in which the loop is left. *)
Lemma while_loop_more_fuel (fuel extra : nat) (st st' : state V) :
  loop fuel st = Some st' -> loop (fuel + extra) st = Some st'.
Proof.
  revert st. induction fuel as [|fuel IH]; intros st; simpl.
  - discriminate.
  - destruct (total_included_chunks st <? total_max_length); [|easy].
    destruct (search (best_segments st)) as [score [seg|]]; [|easy].
    apply IH.
Qed.

(** A round that finds a segment covers at least one more chunk. *)
Lemma accept_progress (st : state V) (score : V) (seg : segment) :
  search (best_segments st) = (score, Some seg) ->
  total_included_chunks st + 1 <= total_included_chunks (accept st score seg).
Proof.
  intros Es. apply search_round_found in Es.
  destruct Es as ((_ & Hlt & _) & _). simpl. lia.
Qed.

(** The distance to the total cap bounds the number of rounds. *)
Lemma while_loop_terminates (fuel : nat) (st : state V) :
  (Z.to_nat (total_max_length - total_included_chunks st) < fuel)%nat ->
  exists st', loop fuel st = Some st'.
Proof.
  revert st. induction fuel as [|fuel IH]; intros st Hfuel; [lia|]. simpl.
  destruct (total_included_chunks st <? total_max_length) eqn:Elt;
    [|now eexists].
  apply Z.ltb_lt in Elt.
  destruct (search (best_segments st)) as [score [seg|]] eqn:Es;
    [|now eexists].
  apply IH. pose proof (accept_progress st score seg Es). lia.
Qed.

Lemma accept_state_ok (st : state V) (score : V) (seg : segment) :
  state_ok chunk_values max_segment_length st ->
  search (best_segments st) = (score, Some seg) ->
  state_ok chunk_values max_segment_length (accept st score seg).
Proof.
  intros (Hwf & Htot & Hsc & Hnd) Es.
  apply search_round_found in Es.
  destruct Es as (Hseg & Hstart & _ & Hscore).
  unfold state_ok; simpl. repeat split.
  - apply Forall_app. split; [exact Hwf | now constructor].
  - rewrite total_length_app. lia.
  - apply Forall2_app; [exact Hsc | now constructor].
  - rewrite map_app. simpl.
    apply NoDup_app; repeat split;
      [exact Hnd | repeat constructor; intros [] | ].
    intros x Hx [Hx'|[]]. subst x.
    apply in_map_iff in Hx. destruct Hx as (s & Hfst & Hs).
    rewrite Forall_forall in Hwf. destruct (Hwf s Hs) as (_ & Hlt & _).
    unfold start_in_selected in Hstart.
    assert (Hex : existsb (fun s0 => (fst seg >=? fst s0) && (fst seg <? snd s0))
                          (best_segments st) = true).
    { apply existsb_exists. exists s. split; [exact Hs|].
      apply andb_true_iff. split; [apply Z.geb_le | apply Z.ltb_lt]; lia. }
    congruence.
Qed.

Lemma initial_state_ok :
  state_ok chunk_values max_segment_length (@initial_state V).
Proof.
  unfold state_ok; simpl. repeat split; constructor.
Qed.

Lemma selection_state_ok (fuel : nat) (st : state V) :
  selection chunk_values max_segment_length total_max_length
            min_segment_value fuel = Some st ->
  state_ok chunk_values max_segment_length st.
Proof.
  apply while_loop_invariant; [|apply initial_state_ok].
  intros st0 score seg Hok _ Es. now apply accept_state_ok.
Qed.

(** The call returns exactly when the loop is left. *)
Lemma find_best_segments_selection (fuel : nat) (r : list segment * list V) :
  find_best_segments chunk_values max_segment_length total_max_length
                     min_segment_value fuel = Some r ->
  exists st,
    selection chunk_values max_segment_length total_max_length
              min_segment_value fuel = Some st /\
    r = result_of st.
Proof.
  unfold find_best_segments.
  destruct (selection _ _ _ _ fuel) as [st|]; simpl; [|discriminate].
  intros [= <-]. now exists st.
Qed.

Lemma find_best_segments_more_fuel (fuel extra : nat)
      (r : list segment * list V) :
  find_best_segments chunk_values max_segment_length total_max_length
                     min_segment_value fuel = Some r ->
  find_best_segments chunk_values max_segment_length total_max_length
                     min_segment_value (fuel + extra) = Some r.
Proof.
  intros H. apply find_best_segments_selection in H.
  destruct H as (st & Hsel & ->).
  unfold find_best_segments, selection in *.
  now rewrite (while_loop_more_fuel _ extra _ _ Hsel).
Qed.

(** Segments found in later rounds have both endpoints outside every
    segment found earlier. *)
Lemma found_segments_endpoints_outside (fuel : nat) (st : state V) :
  selection chunk_values max_segment_length total_max_length
            min_segment_value fuel = Some st ->
  ForallOrdPairs endpoints_outside (best_segments st).
Proof.
  apply while_loop_invariant with
    (P := fun s => ForallOrdPairs endpoints_outside (best_segments s));
    [|constructor].
  intros s score seg Hs _ Es. simpl.
  apply search_round_found in Es. destruct Es as (_ & Hstart & Hend & _).
  apply ForallOrdPairs_snoc; [exact Hs|].
  apply Forall_forall. intros a Ha. split; intros Hin.
  - assert (E : start_in_selected (best_segments s) (fst seg) = true);
      [|congruence].
    apply existsb_exists. exists a. split; [exact Ha|].
    apply andb_true_iff. split; [apply Z.geb_le | apply Z.ltb_lt]; lia.
  - assert (E : end_in_selected (best_segments s) (snd seg) = true);
      [|congruence].
    apply existsb_exists. exists a. split; [exact Ha|].
    apply andb_true_iff. split; [apply Z.gtb_lt | apply Z.leb_le]; lia.
Qed.

End Loop.

(** ** The comparison of Python floats is a strict order *)

Lemma SFltb_irrefl (x : spec_float) : SFltb x x = false.
Proof.
  unfold SFltb, SFcompare.
  destruct x as [s|s| |s m e]; try destruct s; simpl; try reflexivity;
    rewrite Z.compare_refl;
    change (Pos.compare_cont Eq m m) with (Pos.compare m m);
    now rewrite Pos.compare_refl.
Qed.

Lemma SFltb_trans (x y z : spec_float) :
  SFltb x y = true -> SFltb y z = true -> SFltb x z = true.
Proof.
  unfold SFltb, SFcompare.
  destruct x as [sx|sx| |sx mx ex], y as [sy|sy| |sy my ey],
           z as [sz|sz| |sz mz ez];
    try destruct sx; try destruct sy; try destruct sz;
    simpl; try easy;
    repeat match goal with
           | |- context [Z.compare ?a ?b] => destruct (Z.compare_spec a b)
           | |- context [Pos.compare_cont Eq ?a ?b] =>
               change (Pos.compare_cont Eq a b) with (Pos.compare a b);
               destruct (Pos.compare_spec a b)
           end;
    simpl; intros; try easy; lia.
Qed.

Lemma float_laws : @NumericLaws float float_numeric.
Proof.
  split; simpl.
  - intros x. rewrite ltb_spec. apply SFltb_irrefl.
  - intros x y z. rewrite !ltb_spec. intros Hyx Hzy.
    eapply SFltb_trans; eassumption.
Qed.

Lemma float_left_laws : @NumericLaws float float_numeric_left.
Proof.
  split; simpl.
  - intros x. rewrite ltb_spec. apply SFltb_irrefl.
  - intros x y z. rewrite !ltb_spec. intros Hyx Hzy.
    eapply SFltb_trans; eassumption.
Qed.

Lemma int_laws : @NumericLaws Z int_numeric.
Proof.
  split; simpl.
  - intros x. rewrite Z.gtb_ltb. apply Z.ltb_irrefl.
  - intros x y z. rewrite !Z.gtb_ltb, !Z.ltb_lt. lia.
Qed.

(** ** Shape of the returned segments *)

Lemma total_length_perm (l l' : list segment) :
  Permutation l l' -> total_length l = total_length l'.
Proof.
  unfold total_length.
  induction 1; simpl; lia.
Qed.

(** C6: every returned segment [(start, end)] satisfies
    [0 <= start < end <= N] and [end - start <= max_segment_length],
    where [N] is the number of chunk values. *)
Theorem returned_segments_within_bounds :
  forall (V : Type) (N : Numeric V) (chunk_values : list V)
         (max_segment_length total_max_length : Z) (min_segment_value : V)
         (fuel : nat) (segments : list segment) (scores : list V),
    find_best_segments chunk_values max_segment_length total_max_length
                       min_segment_value fuel = Some (segments, scores) ->
    Forall (fun s => 0 <= fst s /\ fst s < snd s /\
                     snd s <= Z.of_nat (length chunk_values) /\
                     snd s - fst s <= max_segment_length) segments.
Proof.
  intros V N values M T m fuel segments scores H.
  apply find_best_segments_selection in H.
  destruct H as (st & Hsel & [= -> ->]).
  apply selection_state_ok in Hsel. destruct Hsel as (Hwf & _).
  eapply Permutation_Forall; [apply sorted_by_start_perm | exact Hwf].
Qed.

Lemma returned_segments_within_bounds_witness :
  Forall (fun s => 0 <= fst s /\ fst s < snd s /\ snd s <= 3 /\
                   snd s - fst s <= 3) [(0, 3); (1, 2)].
Proof.
  exact (returned_segments_within_bounds
           float float_numeric [-1; 5; -1]%float 3 5 0%float 3
           [(0, 3); (1, 2)] [5; 3]%float eq_refl).
Defined.

(** ** Termination *)

(** C9: the selection loop terminates on every input, non-positive caps
    included.  A round that starts below the total cap either leaves the
    loop because it found nothing, or covers at least one more chunk and
    goes on; the call returns once the loop condition has been evaluated
    [total_max_length + 1] times (once, for a non-positive cap), with more
    fuel changing nothing; and the number of rounds that added a segment,
    which is the number of returned segments, is at most
    [total_max_length] (none for a non-positive cap). *)
Theorem selection_loop_terminates :
  forall (V : Type) (N : Numeric V) (chunk_values : list V)
         (max_segment_length total_max_length : Z) (min_segment_value : V),
    (forall st : state V,
        total_included_chunks st < total_max_length ->
        match search_round chunk_values max_segment_length min_segment_value
                           (best_segments st) with
        | (_, None) =>
            forall fuel,
              while_loop chunk_values max_segment_length total_max_length
                         min_segment_value (S fuel) st = Some st
        | (score, Some seg) =>
            total_included_chunks st + 1
            <= total_included_chunks (accept st score seg) /\
            forall fuel,
              while_loop chunk_values max_segment_length total_max_length
                         min_segment_value (S fuel) st
              = while_loop chunk_values max_segment_length total_max_length
                           min_segment_value fuel (accept st score seg)
        end) /\
    exists segments scores,
      (forall extra,
          find_best_segments chunk_values max_segment_length total_max_length
                             min_segment_value
                             (S (Z.to_nat total_max_length) + extra)
          = Some (segments, scores)) /\
      (length segments <= Z.to_nat total_max_length)%nat /\
      length scores = length segments.
Proof.
  intros V N values M T m. split.
  - intros st Hlt.
    destruct (search_round values M m (best_segments st))
      as [score [seg|]] eqn:Es.
    + split; [exact (accept_progress values M m st score seg Es)|].
      intros fuel. simpl. apply Z.ltb_lt in Hlt. now rewrite Hlt, Es.
    + intros fuel. simpl. apply Z.ltb_lt in Hlt. now rewrite Hlt, Es.
  - destruct (while_loop_terminates values M T m (S (Z.to_nat T)) initial_state)
      as (st & Hst); [simpl; lia|].
    exists (sorted_by_start (best_segments st)), (segment_scores st).
    split; [|split].
    + intros extra. unfold find_best_segments, selection.
      now rewrite (while_loop_more_fuel values M T m _ extra _ _ Hst).
    + rewrite <- (Permutation_length (sorted_by_start_perm (best_segments st))).
      assert (Hinv : Z.of_nat (length (best_segments st))
                     <= total_included_chunks st /\
                     (length (best_segments st) = 0%nat \/
                      Z.of_nat (length (best_segments st)) <= T)).
      { revert Hst.
        apply while_loop_invariant with
          (P := fun s => Z.of_nat (length (best_segments s))
                         <= total_included_chunks s /\
                         (length (best_segments s) = 0%nat \/
                          Z.of_nat (length (best_segments s)) <= T)).
        - intros s score seg (Hle & _) Hlt Es.
          pose proof (accept_progress values M m s score seg Es) as Hp.
          simpl in *. rewrite length_app. simpl. lia.
        - simpl. lia. }
      lia.
    + assert (Hok : state_ok values M st)
        by (eapply selection_state_ok; exact Hst).
      destruct Hok as (_ & _ & Hsc & _).
      rewrite <- (Permutation_length (sorted_by_start_perm (best_segments st))).
      symmetry. eapply Forall2_length; exact Hsc.
Qed.

Lemma selection_loop_terminates_witness :
  total_included_chunks (@initial_state Z) + 1
  <= total_included_chunks (accept initial_state 5 (1, 2)).
Proof.
  exact (proj1 (proj1 (selection_loop_terminates
                         Z int_numeric [-1; 5; -1] 1 5 0)
                      initial_state eq_refl)).
Defined.

(** ** The total cap *)

(** C2, evaluated on three chunks of value [1.0] with
    [max_segment_length = 3], [total_max_length = 2] and threshold [0.0]:
    the first round starts below the cap and accepts the whole window
    [(0, 3)], so the returned lengths sum to 3, above the cap of 2. *)
Theorem total_cap_overshoot :
  (forall extra,
      find_best_segments (N := float_numeric) [1; 1; 1]%float 3 2 0%float
                         (2 + extra)
      = Some ([(0, 3)], [3]%float)) /\
  total_length [(0, 3)] = 3 /\
  ~ total_length [(0, 3)] <= 2.
Proof.
  split; [|split].
  - intros extra. apply find_best_segments_more_fuel.
    vm_compute. reflexivity.
  - reflexivity.
  - vm_compute. intros H. now apply H.
Qed.

(** C10, as stated, at one chunk of value [1.0] with
    [max_segment_length = 1] and [total_max_length = -1]: the loop body
    never runs, the returned lengths sum to 0, and 0 is not below
    [total_max_length + max_segment_length = 0]. *)
Lemma caps_bound_fails_for_negative_total :
  1 <= 1 /\
  find_best_segments (N := float_numeric) [1]%float 1 (-1) 0%float 1
  = Some ([], []) /\
  ~ total_length [] < (-1) + 1.
Proof.
  split; [lia|]. split; [reflexivity|]. simpl. lia.
Qed.

(** C10, amended: when [max_segment_length >= 1] and
    [total_max_length + max_segment_length >= 1] (so in particular when
    [total_max_length >= 0]), the covered length stays strictly below
    [total_max_length + max_segment_length].  The bound holds before the
    first round, is kept by every round that starts below the total cap
    and accepts a segment, and so holds for the returned segments. *)
Theorem total_length_below_both_caps :
  forall (V : Type) (N : Numeric V) (chunk_values : list V)
         (max_segment_length total_max_length : Z) (min_segment_value : V),
    1 <= max_segment_length ->
    0 < total_max_length + max_segment_length ->
    total_included_chunks (@initial_state V)
    < total_max_length + max_segment_length /\
    (forall (st : state V) score seg,
        total_included_chunks st < total_max_length ->
        search_round chunk_values max_segment_length min_segment_value
                     (best_segments st) = (score, Some seg) ->
        total_included_chunks (accept st score seg)
        < total_max_length + max_segment_length) /\
    (forall fuel segments scores,
        find_best_segments chunk_values max_segment_length total_max_length
                           min_segment_value fuel = Some (segments, scores) ->
        total_length segments < total_max_length + max_segment_length).
Proof.
  intros V N values M T m HM HTM.
  assert (Hstep : forall (st : state V) score seg,
             total_included_chunks st < T ->
             search_round values M m (best_segments st) = (score, Some seg) ->
             total_included_chunks (accept st score seg) < T + M).
  { intros st score seg Hlt Es. apply search_round_found in Es.
    destruct Es as ((_ & _ & _ & Hlen) & _). simpl. lia. }
  split; [simpl; lia|]. split; [exact Hstep|].
  intros fuel segments scores H.
  apply find_best_segments_selection in H.
  destruct H as (st & Hsel & [= -> ->]).
  rewrite <- (total_length_perm _ _ (sorted_by_start_perm (best_segments st))).
  pose proof (selection_state_ok _ _ _ _ _ _ Hsel) as (_ & <- & _).
  revert Hsel. unfold selection.
  apply while_loop_invariant with
    (P := fun s => total_included_chunks s < T + M).
  - intros s score seg _ Hlt Es. now apply Hstep.
  - simpl. lia.
Qed.

Lemma total_length_below_both_caps_witness :
  total_length [(0, 3)] < 2 + 3.
Proof.
  refine (proj2 (proj2 (total_length_below_both_caps
                          float float_numeric [1; 1; 1]%float 3 2 0%float
                          _ _))
                2%nat [(0, 3)] [3]%float eq_refl); lia.
Defined.

(** ** Overlap *)

(** C1, evaluated on the chunk values [-1.0, 5.0, -1.0] with
    [max_segment_length = 3], [total_max_length = 5] and threshold [0.0]:
    the first round accepts [(1, 2)]; in the second round the window
    [(0, 3)] passes both tests, since neither its start [0] nor its end
    [3] lies in [(1, 2)], and is accepted although it contains [(1, 2)].
    Chunk index 1 then belongs to both returned segments. *)
Theorem enclosing_window_overlaps :
  (forall extra,
      find_best_segments (N := float_numeric) [-1; 5; -1]%float 3 5 0%float
                         (3 + extra)
      = Some ([(0, 3); (1, 2)], [5; 3]%float)) /\
  covers (0, 3) 1 /\ covers (1, 2) 1 /\
  ~ pairwise_disjoint [(0, 3); (1, 2)].
Proof.
  split; [|split; [|split]].
  - intros extra. apply find_best_segments_more_fuel.
    vm_compute. reflexivity.
  - unfold covers; simpl; lia.
  - unfold covers; simpl; lia.
  - intros H. inversion H as [|a l Ha _]; subst.
    inversion Ha as [|b l' Hab _]; subst.
    apply (Hab 1). unfold covers; simpl; lia.
Qed.

(** ** The worked scenario *)

(** Sums of the windows that compete in the first round. *)
Lemma scenario_window_sums :
  float_sum (slice scenario_values 2 4) = f1_8 /\
  float_sum (slice scenario_values 1 4) = f1_9_up /\
  float_sum (slice scenario_values 2 5) = f1_9_up /\
  float_sum_left (slice scenario_values 2 4) = f1_8 /\
  float_sum_left (slice scenario_values 1 4) = f1_9 /\
  float_sum_left (slice scenario_values 2 5) = f1_9_up /\
  PrimFloat.ltb f1_8 f1_9 = true /\ PrimFloat.ltb f1_9 f1_9_up = true.
Proof.
  repeat split; vm_compute; reflexivity.
Qed.

(** C3, as stated: the first round does not select [(2, 4)] with score
    [1.8], whichever way [sum] adds the floats: the windows [(1, 4)] and
    [(2, 5)] score about [1.9]. *)
Lemma scenario_first_round_is_not_2_4 :
  search_round (N := float_numeric) scenario_values 3 f0_15 []
  <> (f1_8, Some (2, 4)) /\
  search_round (N := float_numeric_left) scenario_values 3 f0_15 []
  <> (f1_8, Some (2, 4)).
Proof.
  split; vm_compute; intros H; discriminate H.
Qed.

(** C3, amended: on the scenario the first round selects [(1, 4)] with
    score [0.1 + 0.9 + 0.9], which [sum] returns as [1.9000000000000001];
    with [(1, 4)] accepted the second round finds no window above [0.15]
    (only [(0, 1)] and [(4, 5)] remain, scoring [0.1]); the call returns
    [[(1, 4)]].  When [sum] adds strictly from left to right (CPython
    before 3.12), [(1, 4)] scores [1.9] and is then beaten by [(2, 5)] with
    [1.9000000000000001]; the second round selects [(0, 2)] with score
    [0.2], and the call returns [[(0, 2), (2, 5)]] with the scores in the
    order found. *)
Theorem scenario_trace :
  (search_round (N := float_numeric) scenario_values 3 f0_15 []
   = (f1_9_up, Some (1, 4)) /\
   search_round (N := float_numeric) scenario_values 3 f0_15 [(1, 4)]
   = (f0_15, None) /\
   forall extra,
     find_best_segments (N := float_numeric) scenario_values 3 5 f0_15
                        (2 + extra)
     = Some ([(1, 4)], [f1_9_up])) /\
  (search_round (N := float_numeric_left) scenario_values 3 f0_15 []
   = (f1_9_up, Some (2, 5)) /\
   search_round (N := float_numeric_left) scenario_values 3 f0_15 [(2, 5)]
   = (f0_2, Some (0, 2)) /\
   forall extra,
     find_best_segments (N := float_numeric_left) scenario_values 3 5 f0_15
                        (3 + extra)
     = Some ([(0, 2); (2, 5)], [f1_9_up; f0_2])).
Proof.
  split; (split; [vm_compute; reflexivity|]);
    (split; [vm_compute; reflexivity|]);
    intros extra; apply find_best_segments_more_fuel;
    vm_compute; reflexivity.
Qed.

(** ** Empty results and failures *)

Lemma nothing_found_returns_empty {V : Type} {N : Numeric V}
      (chunk_values : list V) (max_segment_length total_max_length : Z)
      (min_segment_value : V) (fuel : nat) :
  search_round chunk_values max_segment_length min_segment_value []
  = (min_segment_value, None) ->
  find_best_segments chunk_values max_segment_length total_max_length
                     min_segment_value (S fuel) = Some ([], []).
Proof.
  intros Es. unfold find_best_segments, selection. simpl.
  rewrite Es. now destruct (0 <? total_max_length).
Qed.

(** C4, as stated, on one chunk of value [1.0] with threshold [0.0]: with
    [max_segment_length = 0], and likewise with [total_max_length = 0],
    the call ends by its [return] statement with the empty result; it does
    not raise [InvalidArgument]. *)
Lemma nonpositive_cap_is_not_rejected :
  selector_outcome (N := float_numeric) [1]%float 0 5 0%float 1
  = Some (Returned ([], [])) /\
  selector_outcome (N := float_numeric) [1]%float 3 0 0%float 1
  = Some (Returned ([], [])) /\
  selector_outcome (N := float_numeric) [1]%float 0 5 0%float 1
  <> Some (Raised InvalidArgument) /\
  selector_outcome (N := float_numeric) [1]%float 3 0 0%float 1
  <> Some (Raised InvalidArgument).
Proof.
  repeat split; try reflexivity; vm_compute; discriminate.
Qed.

(** C4, amended: if [max_segment_length] or [total_max_length] is
    non-positive, the call ends at the first evaluation of the loop
    condition or in the first round and returns the normal empty result;
    and for no arguments does a call end in a failure, [InvalidArgument]
    or other. *)
Theorem nonpositive_cap_returns_empty :
  forall (V : Type) (N : Numeric V) (chunk_values : list V)
         (max_segment_length total_max_length : Z) (min_segment_value : V)
         (fuel : nat),
    (max_segment_length <= 0 \/ total_max_length <= 0 ->
     selector_outcome chunk_values max_segment_length total_max_length
                      min_segment_value (S fuel)
     = Some (Returned ([], []))) /\
    (forall e,
        selector_outcome chunk_values max_segment_length total_max_length
                         min_segment_value fuel
        <> Some (Raised e)).
Proof.
  intros V N values M T m fuel. split.
  - intros [HM|HT]; unfold selector_outcome.
    + rewrite nothing_found_returns_empty; [reflexivity|].
      now apply search_round_no_length.
    + unfold find_best_segments, selection. simpl.
      destruct (0 <? T) eqn:E; [apply Z.ltb_lt in E; lia | reflexivity].
  - intros e. unfold selector_outcome.
    destruct (find_best_segments values M T m fuel); simpl; discriminate.
Qed.

Lemma nonpositive_cap_returns_empty_witness :
  selector_outcome (N := float_numeric) scenario_values (-2) 5 f0_15 1
  = Some (Returned ([], [])).
Proof.
  refine (proj1 (nonpositive_cap_returns_empty
                   float float_numeric scenario_values (-2) 5 f0_15 0) _).
  left. lia.
Defined.

(** C8: if [chunk_values] is empty, or if no window the first round looks
    at has a sum strictly greater than [min_segment_value], the call
    returns the empty segment list (and the empty score list) by its
    [return] statement, as soon as the loop condition may be evaluated
    once. *)
Theorem empty_or_unqualified_returns_empty :
  forall (V : Type) (N : Numeric V) (chunk_values : list V)
         (max_segment_length total_max_length : Z) (min_segment_value : V)
         (fuel : nat),
    chunk_values = [] \/
    no_candidate_exceeds chunk_values max_segment_length min_segment_value ->
    find_best_segments chunk_values max_segment_length total_max_length
                       min_segment_value (S fuel) = Some ([], []) /\
    selector_outcome chunk_values max_segment_length total_max_length
                     min_segment_value (S fuel) = Some (Returned ([], [])).
Proof.
  intros V N values M T m fuel H.
  assert (Hno : no_candidate_exceeds values M m).
  { destruct H as [-> | H]; [|exact H].
    intros s e Hs Hlt He _. simpl in He. lia. }
  assert (E : find_best_segments values M T m (S fuel) = Some ([], [])).
  { apply nothing_found_returns_empty.
    now apply search_round_nothing. }
  split; [exact E|]. unfold selector_outcome. now rewrite E.
Qed.

Lemma empty_or_unqualified_returns_empty_witness :
  find_best_segments (N := float_numeric) [f0_1; f0_1] 3 5 f0_9 1
  = Some ([], []).
Proof.
  refine (proj1 (empty_or_unqualified_returns_empty
                   float float_numeric [f0_1; f0_1] 3 5 f0_9 0 _)).
  right. intros s e Hs Hlt He Hlen. simpl in He.
  assert (Hcases : (s = 0 /\ e = 1) \/ (s = 0 /\ e = 2) \/ (s = 1 /\ e = 2))
    by lia.
  destruct Hcases as [[-> ->] | [[-> ->] | [-> ->]]]; reflexivity.
Defined.

(** ** Scores *)

(** C5: every returned segment was recorded, in the round that found it,
    with a score equal to the sum of its slice, strictly greater than
    [min_segment_value] and hence different from it; so a window whose sum
    equals the threshold is not among the returned segments. *)
Theorem recorded_scores_exceed_threshold :
  forall (V : Type) (N : Numeric V) (L : NumericLaws V)
         (chunk_values : list V)
         (max_segment_length total_max_length : Z) (min_segment_value : V)
         (fuel : nat) (segments : list segment) (scores : list V),
    find_best_segments chunk_values max_segment_length total_max_length
                       min_segment_value fuel = Some (segments, scores) ->
    (exists found,
        segments = sorted_by_start found /\
        Forall2 (fun seg score =>
                   score = py_sum (slice chunk_values (fst seg) (snd seg)) /\
                   py_gt score min_segment_value = true /\
                   score <> min_segment_value)
                found scores) /\
    Forall (fun seg =>
              py_gt (py_sum (slice chunk_values (fst seg) (snd seg)))
                    min_segment_value = true /\
              py_sum (slice chunk_values (fst seg) (snd seg))
              <> min_segment_value)
           segments.
Proof.
  intros V N L values M T m fuel segments scores H.
  apply find_best_segments_selection in H.
  destruct H as (st & Hsel & [= -> ->]).
  assert (Hrec : Forall2 (fun seg score =>
                            score = py_sum (slice values (fst seg) (snd seg)) /\
                            py_gt score m = true /\ score <> m)
                         (best_segments st) (segment_scores st)).
  { revert Hsel. unfold selection.
    apply while_loop_invariant with
      (P := fun s => Forall2 (fun seg score =>
                                score = py_sum (slice values (fst seg) (snd seg)) /\
                                py_gt score m = true /\ score <> m)
                             (best_segments s) (segment_scores s));
      [|constructor].
    intros s score seg Hs _ Es. simpl.
    apply Forall2_app; [exact Hs|]. constructor; [|constructor].
    pose proof (search_round_above values M m (best_segments s)) as Hab.
    rewrite Es in Hab. unfold above_threshold in Hab. simpl in Hab.
    apply search_round_found in Es. destruct Es as (_ & _ & _ & Hscore).
    repeat split; [exact Hscore | exact Hab |].
    intros ->. rewrite py_gt_irrefl in Hab. discriminate. }
  split; [now exists (best_segments st)|].
  eapply Permutation_Forall; [apply sorted_by_start_perm|].
  clear Hsel. induction Hrec as [|seg score l l' (-> & Hgt & Hne) _ IH];
    constructor; auto.
Qed.

Lemma recorded_scores_exceed_threshold_witness :
  Forall (fun seg =>
            py_gt (py_sum (slice scenario_values (fst seg) (snd seg))) f0_15
            = true /\
            py_sum (slice scenario_values (fst seg) (snd seg)) <> f0_15)
         [(1, 4)].
Proof.
  exact (proj2 (recorded_scores_exceed_threshold
                  float float_numeric float_laws scenario_values 3 5 f0_15
                  2%nat [(1, 4)] [f1_9_up] eq_refl)).
Defined.

(** C7: the returned segments are in strictly ascending order of start,
    hence without duplicates; they are the segments found, sorted, while
    the returned scores are the scores in the order the rounds recorded
    them, the i-th score being the sum of the i-th segment found.  The
    scores are not re-paired: on the chunk values [1.0, 0.0, 5.0] with
    both caps allowing two single chunks, the rounds find [(2, 3)] then
    [(0, 1)], and the first returned score, [5.0], is not the sum of the
    first returned segment, [(0, 1)]. *)
Theorem sorted_segments_unsorted_scores :
  (forall (V : Type) (N : Numeric V) (chunk_values : list V)
          (max_segment_length total_max_length : Z) (min_segment_value : V)
          (fuel : nat) (segments : list segment) (scores : list V),
      find_best_segments chunk_values max_segment_length total_max_length
                         min_segment_value fuel = Some (segments, scores) ->
      ascending_starts segments /\
      NoDup segments /\
      exists st,
        selection chunk_values max_segment_length total_max_length
                  min_segment_value fuel = Some st /\
        segments = sorted_by_start (best_segments st) /\
        scores = segment_scores st /\
        Forall2 (score_of chunk_values) (best_segments st) scores) /\
  (selection (N := float_numeric) [1; 0; 5]%float 1 2 0%float 3
   = Some (mkState [(2, 3); (0, 1)] [5; 1]%float 2) /\
   find_best_segments (N := float_numeric) [1; 0; 5]%float 1 2 0%float 3
   = Some ([(0, 1); (2, 3)], [5; 1]%float) /\
   ~ Forall2 (score_of (N := float_numeric) [1; 0; 5]%float)
             [(0, 1); (2, 3)] [5; 1]%float).
Proof.
  split.
  - intros V N values M T m fuel segments scores H.
    apply find_best_segments_selection in H.
    destruct H as (st & Hsel & [= -> ->]).
    pose proof (selection_state_ok _ _ _ _ _ _ Hsel) as (_ & _ & Hsc & Hnd).
    assert (Hasc : ascending_starts (sorted_by_start (best_segments st)))
      by now apply sorted_by_start_ascending.
    split; [exact Hasc|]. split; [now apply ascending_starts_NoDup|].
    now exists st.
  - split; [vm_compute; reflexivity|]. split; [vm_compute; reflexivity|].
    intros H. inversion H as [|seg score l l' Hhead _]; subst.
    unfold score_of in Hhead. vm_compute in Hhead.
    assert (E : PrimFloat.eqb 5 1 = true) by (rewrite Hhead at 1; reflexivity).
    vm_compute in E. discriminate E.
Qed.

Lemma sorted_segments_unsorted_scores_witness :
  ascending_starts [(0, 2); (2, 5)] /\ NoDup [(0, 2); (2, 5)].
Proof.
  destruct (proj1 sorted_segments_unsorted_scores
                  float float_numeric_left scenario_values 3 5 f0_15
                  3%nat [(0, 2); (2, 5)] [f1_9_up; f0_2] eq_refl)
    as (Hasc & Hnd & _).
  exact (conj Hasc Hnd).
Defined.

(** ** More on the builtins *)

Lemma bind_ok {A B : Type} (r : py_result A) (k : A -> py_result B) (b : B) :
  bind r k = Ok b -> exists a, r = Ok a /\ k a = Ok b.
Proof.
  destruct r as [a|e]; simpl; [|discriminate]. intros H. now exists a.
Qed.


Lemma fold_left_ext {A B : Type} (f g : A -> B -> A) (l : list B) (a : A) :
  (forall a x, In x l -> f a x = g a x) ->
  fold_left f l a = fold_left g l a.
Proof.
  revert a. induction l as [|y l IH]; intros a H; simpl; [reflexivity|].
  rewrite H by now left. apply IH. intros a' x Hx. apply H. now right.
Qed.

(** A loop that only appends builds the concatenation of what it appends. *)
Lemma fold_left_append {A B : Type} (g : B -> list A) (l : list B)
      (acc : list A) :
  fold_left (fun acc x => acc ++ g x) l acc = acc ++ flat_map g l.
Proof.
  revert acc. induction l as [|y l IH]; intros acc; simpl.
  - now rewrite app_nil_r.
  - rewrite IH. now rewrite app_assoc.
Qed.

Lemma flat_map_singleton {A B : Type} (f : B -> A) (l : list B) :
  flat_map (fun x => [f x]) l = map f l.
Proof.
  induction l as [|y l IH]; simpl; [reflexivity | now rewrite IH].
Qed.

(** With non-negative bounds a slice is [firstn] after [skipn]. *)
Lemma slice_nonneg {A : Type} (l : list A) (a b : Z) :
  0 <= a -> 0 <= b ->
  slice l a b = firstn (Z.to_nat (b - a)) (skipn (Z.to_nat a) l).
Proof.
  intros Ha Hb. unfold slice, clamp_index.
  destruct (a <? 0) eqn:Ea; [apply Z.ltb_lt in Ea; lia|].
  destruct (b <? 0) eqn:Eb; [apply Z.ltb_lt in Eb; lia|].
  set (n := Z.of_nat (length l)).
  destruct (Z.le_gt_cases a n) as [Han|Han].
  - rewrite (Z.min_l a n) by lia.
    destruct (Z.le_gt_cases b n) as [Hbn|Hbn].
    + now rewrite (Z.min_l b n) by lia.
    + rewrite (Z.min_r b n) by lia.
      rewrite !firstn_all2; try reflexivity; rewrite length_skipn; lia.
  - rewrite (Z.min_r a n) by lia.
    rewrite !(skipn_all2 l) by lia. now rewrite !firstn_nil.
Qed.

Lemma firstn_plus {A : Type} (l : list A) (a b : nat) :
  firstn (a + b) l = firstn a l ++ firstn b (skipn a l).
Proof.
  revert l. induction a as [|a IH]; intros l; simpl; [reflexivity|].
  destruct l as [|x l]; simpl; [now rewrite firstn_nil | now rewrite IH].
Qed.

Lemma nth_error_firstn_skipn {A : Type} (l : list A) (a size j : nat) :
  (j < size)%nat ->
  nth_error (firstn size (skipn a l)) j = nth_error l (a + j).
Proof.
  intros Hj. rewrite nth_error_firstn.
  destruct (Nat.ltb_spec j size); [|lia].
  now rewrite nth_error_skipn.
Qed.

(** Windows laid end to end give back a prefix of the text. *)
Lemma concat_windows {A : Type} (text : list A) (size count : nat) :
  concat (windows text size size count) = firstn (count * size) text.
Proof.
  unfold windows. induction count as [|m IH]; [reflexivity|].
  rewrite seq_S, map_app, concat_app, IH. simpl.
  rewrite app_nil_r. rewrite Nat.add_comm. symmetry. apply firstn_plus.
Qed.

Lemma range_elements_positive (stop step : Z) :
  0 < step ->
  range_elements 0 stop step
  = map (fun k => Z.of_nat (k * Z.to_nat step))
        (seq 0 (Z.to_nat ((stop + step - 1) / step))).
Proof.
  intros Hstep. unfold range_elements, range_length.
  destruct (0 <? step) eqn:E; [|apply Z.ltb_ge in E; lia].
  assert (Hlen : (if 0 <? stop then (stop - 0 - 1) / step + 1 else 0)
                 = Z.max 0 ((stop + step - 1) / step)).
  { destruct (0 <? stop) eqn:Es.
    - apply Z.ltb_lt in Es.
      replace (stop + step - 1) with (stop - 0 - 1 + 1 * step) by lia.
      rewrite Z.div_add by lia.
      assert (0 <= (stop - 0 - 1) / step) by (apply Z.div_pos; lia). lia.
    - apply Z.ltb_ge in Es.
      assert ((stop + step - 1) / step <= 0); [|lia].
      assert (stop + step - 1 < step * 1) by lia.
      assert ((stop + step - 1) / step < 1); [|lia].
      apply Z.div_lt_upper_bound; lia. }
  rewrite Hlen. rewrite Z2Nat.inj_max. simpl Z.to_nat at 1.
  rewrite Nat.max_0_l. apply map_ext. intros k. lia.
Qed.

(** ** [chunk_text] *)

Lemma range_index_below (n step : Z) (k : nat) :
  0 < step ->
  (k < Z.to_nat ((n + step - 1) / step))%nat ->
  Z.of_nat (k * Z.to_nat step) < n.
Proof.
  intros Hstep Hk.
  pose proof (Z.mul_div_le (n + step - 1) step Hstep) as Hle.
  assert (Hk' : Z.of_nat k + 1 <= (n + step - 1) / step) by lia.
  rewrite Nat2Z.inj_mul, Z2Nat.id by lia. nia.
Qed.

(** With a positive size and a positive stride nothing is filtered: the
    chunks are the windows at the multiples of the stride. *)
Lemma chunk_text_windows {A : Type} (text : list A) (chunk_size overlap : Z) :
  1 <= chunk_size -> overlap < chunk_size ->
  chunk_text text chunk_size overlap
  = Ok (windows text (Z.to_nat chunk_size) (Z.to_nat (chunk_size - overlap))
                (Z.to_nat ((Z.of_nat (length text) + (chunk_size - overlap) - 1)
                           / (chunk_size - overlap)))).
Proof.
  intros Hsize Hstep. unfold chunk_text, range_step.
  destruct (chunk_size - overlap =? 0) eqn:E; [apply Z.eqb_eq in E; lia|].
  simpl. f_equal.
  rewrite range_elements_positive by lia.
  set (n := Z.of_nat (length text)).
  set (step := chunk_size - overlap).
  rewrite fold_left_ext with
    (g := fun chunks i =>
            chunks ++ [firstn (Z.to_nat chunk_size) (skipn (Z.to_nat i) text)]).
  - rewrite fold_left_append. simpl. rewrite flat_map_singleton, map_map.
    unfold windows. apply map_ext. intros k. now rewrite Nat2Z.id.
  - intros chunks i Hi. apply in_map_iff in Hi.
    destruct Hi as (k & <- & Hk). apply in_seq in Hk.
    assert (Hlt : Z.of_nat (k * Z.to_nat step) < n)
      by (apply range_index_below; lia).
    rewrite slice_nonneg by lia.
    replace (Z.of_nat (k * Z.to_nat step) + chunk_size
             - Z.of_nat (k * Z.to_nat step)) with chunk_size by lia.
    destruct (firstn (Z.to_nat chunk_size)
                     (skipn (Z.to_nat (Z.of_nat (k * Z.to_nat step))) text))
      as [|c cs] eqn:Ec; [|reflexivity].
    exfalso. apply (f_equal (@length A)) in Ec.
    rewrite length_firstn, length_skipn in Ec. simpl in Ec. lia.
Qed.

(** X1: cut without overlap and with a chunk size of at least one
    character, the text is the concatenation of its chunks. *)
Theorem chunk_text_round_trip :
  forall (A : Type) (text : list A) (chunk_size : Z),
    1 <= chunk_size ->
    exists chunks,
      chunk_text text chunk_size 0 = Ok chunks /\ concat chunks = text.
Proof.
  intros A text size Hsize. eexists. split.
  - apply chunk_text_windows; lia.
  - replace (size - 0) with size by lia.
    rewrite concat_windows. apply firstn_all2.
    set (n := Z.of_nat (length text)).
    pose proof (Z.mul_succ_div_gt (n + size - 1) size ltac:(lia)) as Hgt.
    assert (0 <= (n + size - 1) / size) by (apply Z.div_pos; lia).
    assert (Hcover : n <= (n + size - 1) / size * size) by lia.
    apply Nat2Z.inj_le. rewrite Nat2Z.inj_mul, !Z2Nat.id by lia. exact Hcover.
Qed.

Lemma chunk_text_round_trip_witness :
  exists chunks,
    chunk_text (lit "abcdefghij") 4 0 = Ok chunks /\
    concat chunks = lit "abcdefghij".
Proof.
  apply (chunk_text_round_trip ascii (lit "abcdefghij") 4). lia.
Defined.

(** X2: when the chunk size is at least one and larger than the overlap,
    [chunk_text] returns [ceil(len(text) / (chunk_size - overlap))] chunks,
    none of them empty and none longer than [chunk_size]. *)
Theorem chunk_text_count_and_sizes :
  forall (A : Type) (text : list A) (chunk_size overlap : Z),
    1 <= chunk_size -> overlap < chunk_size ->
    exists chunks,
      chunk_text text chunk_size overlap = Ok chunks /\
      Z.of_nat (length chunks)
      = (Z.of_nat (length text) + (chunk_size - overlap) - 1)
        / (chunk_size - overlap) /\
      Forall (fun chunk => 1 <= Z.of_nat (length chunk) <= chunk_size) chunks.
Proof.
  intros A text size overlap Hsize Hstep. eexists. split; [|split].
  - now apply chunk_text_windows.
  - unfold windows. rewrite length_map, length_seq.
    apply Z2Nat.id. apply Z.div_pos; lia.
  - unfold windows. apply Forall_forall. intros chunk Hc.
    apply in_map_iff in Hc. destruct Hc as (k & <- & Hk).
    apply in_seq in Hk.
    pose proof (range_index_below (Z.of_nat (length text)) (size - overlap) k
                                  ltac:(lia) ltac:(lia)) as Hlt.
    rewrite length_firstn, length_skipn. lia.
Qed.

Lemma chunk_text_count_and_sizes_witness :
  exists chunks,
    chunk_text (lit "abcdefghij") 4 1 = Ok chunks /\
    Z.of_nat (length chunks) = (10 + (4 - 1) - 1) / (4 - 1) /\
    Forall (fun chunk => 1 <= Z.of_nat (length chunk) <= 4) chunks.
Proof.
  apply (chunk_text_count_and_sizes ascii (lit "abcdefghij") 4 1); lia.
Defined.

(** X3: when [overlap] equals [chunk_size] the stride of the [range] is
    zero and the call raises [ValueError], whatever the text; when
    [overlap] is larger the [range] is empty and the call returns no chunk
    at all, whatever the text. *)
Theorem chunk_text_degenerate_stride :
  forall (A : Type) (text : list A) (chunk_size overlap : Z),
    (overlap = chunk_size ->
     chunk_text text chunk_size overlap = Raise ValueError) /\
    (chunk_size < overlap ->
     chunk_text text chunk_size overlap = Ok []).
Proof.
  intros A text size overlap. split; intros H; unfold chunk_text, range_step.
  - subst. now rewrite Z.sub_diag.
  - destruct (size - overlap =? 0) eqn:E; [apply Z.eqb_eq in E; lia|].
    unfold range_elements, range_length.
    destruct (0 <? size - overlap) eqn:E1; [apply Z.ltb_lt in E1; lia|].
    destruct (Z.of_nat (length text) <? 0) eqn:E2;
      [apply Z.ltb_lt in E2; lia|].
    reflexivity.
Qed.

Lemma chunk_text_degenerate_stride_witness :
  chunk_text (lit "abcdefghij") 4 4 = Raise ValueError /\
  chunk_text (lit "abcdefghij") 4 7 = Ok [].
Proof.
  split.
  - apply (proj1 (chunk_text_degenerate_stride ascii (lit "abcdefghij") 4 4)).
    reflexivity.
  - apply (proj2 (chunk_text_degenerate_stride ascii (lit "abcdefghij") 4 7)).
    lia.
Defined.

Lemma nth_error_windows {A : Type} (text : list A) (size stride count k : nat) :
  (k < count)%nat ->
  nth_error (windows text size stride count) k
  = Some (firstn size (skipn (k * stride) text)).
Proof.
  intros Hk. unfold windows.
  rewrite nth_error_map, nth_error_seq.
  destruct (Nat.ltb_spec k count); [reflexivity | lia].
Qed.

Lemma window_count_above (n step : Z) (j : nat) :
  0 < step -> Z.of_nat j < n ->
  (j / Z.to_nat step < Z.to_nat ((n + step - 1) / step))%nat.
Proof.
  intros Hstep Hj.
  apply Nat2Z.inj_lt. rewrite Nat2Z.inj_div, !Z2Nat.id;
    try lia; [|apply Z.div_pos; lia].
  replace (n + step - 1) with (n - 1 + 1 * step) by lia.
  rewrite Z.div_add by lia.
  assert (Z.of_nat j / step <= (n - 1) / step)
    by (apply Z.div_le_mono; lia).
  lia.
Qed.

(** X4: with [0 <= overlap < chunk_size] no character is lost: character
    [j] of the text is character [j mod stride] of chunk [j // stride],
    where [stride = chunk_size - overlap]. *)
Theorem chunk_text_covers_every_character :
  forall (A : Type) (text : list A) (chunk_size overlap : Z) (j : nat),
    0 <= overlap -> overlap < chunk_size ->
    (j < length text)%nat ->
    exists chunks chunk,
      chunk_text text chunk_size overlap = Ok chunks /\
      nth_error chunks (j / Z.to_nat (chunk_size - overlap)) = Some chunk /\
      nth_error chunk (j mod Z.to_nat (chunk_size - overlap))
      = nth_error text j.
Proof.
  intros A text size overlap j Hov Hstep Hj.
  set (st := Z.to_nat (size - overlap)).
  assert (Hst : (0 < st)%nat) by (unfold st; lia).
  eexists. eexists. split; [apply chunk_text_windows; lia|]. split.
  - apply nth_error_windows. apply window_count_above; lia.
  - rewrite nth_error_firstn_skipn.
    + f_equal. fold st. rewrite Nat.mul_comm. symmetry. apply Nat.div_mod_eq.
    + pose proof (Nat.mod_upper_bound j st ltac:(lia)). unfold st in *. lia.
Qed.

Lemma chunk_text_covers_every_character_witness :
  exists chunks chunk,
    chunk_text (lit "abcdefghij") 4 1 = Ok chunks /\
    nth_error chunks (7 / Z.to_nat (4 - 1)) = Some chunk /\
    nth_error chunk (7 mod Z.to_nat (4 - 1)) = nth_error (lit "abcdefghij") 7.
Proof.
  apply (chunk_text_covers_every_character ascii (lit "abcdefghij") 4 1 7);
    simpl; lia.
Defined.

(** X5: with [0 <= overlap < chunk_size], what a chunk holds beyond the
    stride is the beginning of the next chunk: consecutive chunks share
    their [overlap] boundary characters (fewer at the end of the text). *)
Theorem chunk_text_consecutive_overlap :
  forall (A : Type) (text : list A) (chunk_size overlap : Z) (k : nat)
         (chunks : list (list A)) (chunk next : list A),
    0 <= overlap -> overlap < chunk_size ->
    chunk_text text chunk_size overlap = Ok chunks ->
    nth_error chunks k = Some chunk ->
    nth_error chunks (S k) = Some next ->
    skipn (Z.to_nat (chunk_size - overlap)) chunk
    = firstn (Z.to_nat overlap) next.
Proof.
  intros A text size overlap k chunks chunk next Hov Hstep Hc Hk Hk'.
  rewrite chunk_text_windows in Hc by lia. injection Hc as <-.
  assert (Hlt : (S k < length (windows text (Z.to_nat size)
                                      (Z.to_nat (size - overlap))
                                      (Z.to_nat ((Z.of_nat (length text)
                                                  + (size - overlap) - 1)
                                                 / (size - overlap)))))%nat).
  { apply nth_error_Some. rewrite Hk'. discriminate. }
  unfold windows in Hlt. rewrite length_map, length_seq in Hlt.
  rewrite nth_error_windows in Hk by lia.
  rewrite nth_error_windows in Hk' by lia.
  injection Hk as <-. injection Hk' as <-.
  rewrite skipn_firstn_comm, skipn_skipn, firstn_firstn.
  replace (Nat.min (Z.to_nat overlap) (Z.to_nat size))
    with (Z.to_nat size - Z.to_nat (size - overlap))%nat by lia.
  reflexivity.
Qed.

Lemma chunk_text_consecutive_overlap_witness :
  skipn (Z.to_nat (4 - 1)) (lit "defg") = firstn (Z.to_nat 1) (lit "ghij").
Proof.
  apply (chunk_text_consecutive_overlap
           ascii (lit "abcdefghij") 4 1 1
           [lit "abcd"; lit "defg"; lit "ghij"; lit "j"]);
    try lia; reflexivity.
Defined.

(** ** [chunk_text_with_headers] *)

Lemma fold_left_append_nonempty {A B : Type} (f : B -> list A) (l : list B)
      (acc : list (list A)) :
  fold_left (fun chunks i =>
               match f i with
               | [] => chunks
               | _ :: _ => chunks ++ [f i]
               end) l acc
  = acc ++ filter nonempty (map f l).
Proof.
  revert acc. induction l as [|y l IH]; intros acc; simpl.
  - now rewrite app_nil_r.
  - rewrite IH. destruct (f y); simpl; [reflexivity|].
    now rewrite <- app_assoc.
Qed.

(** X6: [chunk_text_with_headers] cuts the text at the same places as
    [chunk_text] and raises [ValueError] in the same case; the chunks of
    [chunk_text] are its chunk texts with the empty ones left out, and each
    header is the generated title of the chunk text beside it. *)
Theorem chunk_text_with_headers_same_cuts :
  forall (generate_chunk_header : str -> str) (text : str) (n overlap : Z),
    match chunk_text_with_headers generate_chunk_header text n overlap with
    | Raise e => chunk_text text n overlap = Raise e
    | Ok chunks =>
        chunk_text text n overlap
        = Ok (filter nonempty (map chunk_body chunks)) /\
        Forall (fun c => header c = generate_chunk_header (chunk_body c))
               chunks
    end.
Proof.
  intros gen text n overlap.
  unfold chunk_text_with_headers, chunk_text, range_step.
  destruct (n - overlap =? 0); simpl; [reflexivity|].
  set (idx := range_elements 0 (Z.of_nat (length text)) (n - overlap)).
  rewrite (fold_left_append
             (fun i => [mkHeaderChunk (gen (slice text i (i + n)))
                                      (slice text i (i + n))])).
  simpl. rewrite flat_map_singleton. split.
  - f_equal.
    rewrite (fold_left_append_nonempty (fun i => slice text i (i + n))).
    simpl. now rewrite map_map.
  - apply Forall_forall. intros c Hc. apply in_map_iff in Hc.
    now destruct Hc as (i & <- & _).
Qed.

(** ** [create_embeddings] *)

Lemma create_embeddings_windows {Vec : Type} (embed_batch : list str -> list Vec)
      (texts : list str) :
  create_embeddings embed_batch texts
  = flat_map embed_batch
             (windows texts 100 100
                      (Z.to_nat ((Z.of_nat (length texts) + 100 - 1) / 100))).
Proof.
  unfold create_embeddings. destruct texts as [|t texts]; [reflexivity|].
  set (l := t :: texts).
  rewrite (fold_left_append (fun i => embed_batch (slice l i (i + 100)))).
  simpl app. rewrite range_elements_positive by lia.
  rewrite !flat_map_concat_map. f_equal.
  unfold windows. rewrite !map_map. apply map_ext_in.
  intros k Hk. apply in_seq in Hk. f_equal.
  rewrite slice_nonneg by lia.
  rewrite Nat2Z.id. f_equal. lia.
Qed.

(** X7: [create_embeddings] sends the texts to the endpoint in consecutive
    batches that, laid end to end, are the texts; no batch is empty and
    none has more than 100 texts; the result is the concatenation of the
    answers.  So when the endpoint embeds each text on its own, batching
    is invisible: the result has the embedding of each text, in order. *)
Theorem create_embeddings_batches :
  forall (Vec : Type) (embed_batch : list str -> list Vec) (texts : list str),
    (exists batches,
        concat batches = texts /\
        Forall (fun b => (1 <= length b <= 100)%nat) batches /\
        create_embeddings embed_batch texts = flat_map embed_batch batches) /\
    (forall embed : str -> Vec,
        (forall batch, embed_batch batch = map embed batch) ->
        create_embeddings embed_batch texts = map embed texts).
Proof.
  intros Vec embed_batch texts.
  set (count := Z.to_nat ((Z.of_nat (length texts) + 100 - 1) / 100)).
  assert (Hcat : concat (windows texts 100 100 count) = texts).
  { rewrite concat_windows. apply firstn_all2. unfold count.
    pose proof (Z.mul_succ_div_gt (Z.of_nat (length texts) + 100 - 1) 100
                                  ltac:(lia)).
    assert (0 <= (Z.of_nat (length texts) + 100 - 1) / 100)
      by (apply Z.div_pos; lia).
    lia. }
  split.
  - exists (windows texts 100 100 count). split; [exact Hcat|]. split.
    + unfold windows. apply Forall_forall. intros b Hb.
      apply in_map_iff in Hb. destruct Hb as (k & <- & Hk).
      apply in_seq in Hk.
      pose proof (range_index_below (Z.of_nat (length texts)) 100 k
                                    ltac:(lia) ltac:(unfold count in Hk; lia)).
      rewrite length_firstn, length_skipn. lia.
    + apply create_embeddings_windows.
  - intros embed Hembed. rewrite create_embeddings_windows. fold count.
    rewrite flat_map_concat_map.
    rewrite (map_ext _ (map embed) Hembed).
    rewrite <- concat_map. now rewrite Hcat.
Qed.

Lemma create_embeddings_batches_witness :
  create_embeddings (map (@length ascii)) [lit "ab"; lit "c"; lit ""]
  = map (@length ascii) [lit "ab"; lit "c"; lit ""].
Proof.
  apply (proj2 (create_embeddings_batches
                  nat (map (@length ascii)) [lit "ab"; lit "c"; lit ""])).
  reflexivity.
Defined.

(** ** [SimpleVectorStore] *)

Lemma zip3_length {A B C : Type} (a : list A) (b : list B) (c : list C) :
  length (zip3 a b c)
  = Nat.min (length a) (Nat.min (length b) (length c)).
Proof.
  revert b c. induction a as [|x a IH]; intros [|y b] [|z c]; simpl;
    try reflexivity.
  now rewrite IH.
Qed.

Lemma zip3_projections {A B C : Type} (a : list A) (b : list B) (c : list C) :
  map (fun t => fst (fst t)) (zip3 a b c) = firstn (length (zip3 a b c)) a /\
  map (fun t => snd (fst t)) (zip3 a b c) = firstn (length (zip3 a b c)) b /\
  map (fun t => snd t) (zip3 a b c) = firstn (length (zip3 a b c)) c.
Proof.
  revert b c. induction a as [|x a IH]; intros [|y b] [|z c]; simpl;
    try (repeat split; reflexivity).
  destruct (IH b c) as (-> & -> & ->). repeat split; reflexivity.
Qed.

Lemma add_documents_fold {Vec : Type} (self : SimpleVectorStore Vec)
      (l : list (str * option Vec * metadata_dict)) :
  fold_left
    (fun (self : SimpleVectorStore Vec) '(doc, vec, meta) =>
       mkStore (dimension self)
               (vectors self ++ [vec])
               (documents self ++ [doc])
               (metadata self ++ [meta]))
    l self
  = mkStore (dimension self)
            (vectors self ++ map (fun t => snd (fst t)) l)
            (documents self ++ map (fun t => fst (fst t)) l)
            (metadata self ++ map (fun t => snd t) l).
Proof.
  revert self. induction l as [|[[doc vec] meta] l IH]; intros self; simpl.
  - rewrite !app_nil_r. now destruct self.
  - rewrite IH. simpl. now rewrite <- !app_assoc.
Qed.



Lemma enumerate_seq {A : Type} (l : list A) :
  enumerate l = combine (map Z.of_nat (seq 0 (length l))) l.
Proof.
  unfold enumerate, range. now rewrite Z.sub_0_r, Nat2Z.id.
Qed.

Lemma in_combine_seq {A : Type} (l : list A) (b : nat) (i : Z) (x : A) :
  In (i, x) (combine (map Z.of_nat (seq b (length l))) l) ->
  Z.of_nat b <= i /\ nth_error l (Z.to_nat i - b) = Some x.
Proof.
  revert b. induction l as [|y l IH]; intros b; simpl; [easy|].
  intros [[= <- <-]|Hin].
  - split; [lia|]. now rewrite Nat2Z.id, Nat.sub_diag.
  - apply IH in Hin. destruct Hin as (Hle & Hnth). split; [lia|].
    replace (Z.to_nat i - b)%nat with (S (Z.to_nat i - S b)) by lia.
    exact Hnth.
Qed.

Lemma in_enumerate {A : Type} (l : list A) (i : Z) (x : A) :
  In (i, x) (enumerate l) ->
  0 <= i < Z.of_nat (length l) /\ nth_error l (Z.to_nat i) = Some x.
Proof.
  rewrite enumerate_seq. intros Hin. apply in_combine_seq in Hin.
  destruct Hin as (Hle & Hnth). rewrite Nat.sub_0_r in Hnth.
  split; [|exact Hnth].
  assert (Z.to_nat i < length l)%nat
    by (apply nth_error_Some; rewrite Hnth; discriminate).
  lia.
Qed.

Lemma list_get_ok {A : Type} (l : list A) (i : Z) (d : A) :
  0 <= i < Z.of_nat (length l) ->
  list_get l i = Ok (nth (Z.to_nat i) l d).
Proof.
  intros Hi. unfold list_get.
  destruct (i <? 0) eqn:E; [apply Z.ltb_lt in E; lia|].
  destruct (0 <=? i) eqn:E0; [|apply Z.leb_gt in E0; lia].
  destruct (i <? Z.of_nat (length l)) eqn:E1; [|apply Z.ltb_ge in E1; lia].
  simpl. rewrite (nth_error_nth' l d) by lia. reflexivity.
Qed.

Lemma in_slice {A : Type} (l : list A) (a b : Z) (x : A) :
  In x (slice l a b) -> In x l.
Proof.
  unfold slice. intros H.
  set (n := Z.to_nat (clamp_index (Z.of_nat (length l)) a)) in *.
  set (m := Z.to_nat (clamp_index (Z.of_nat (length l)) b
                      - clamp_index (Z.of_nat (length l)) a)) in *.
  rewrite <- (firstn_skipn n l). apply in_or_app. right.
  rewrite <- (firstn_skipn m (skipn n l)). apply in_or_app. now left.
Qed.

Section SearchFacts.

Context {Vec : Type}.
Variable cosine : Vec -> Vec -> float.
Variable sort_desc : list (Z * float) -> list (Z * float).
Hypothesis sort_desc_perm : forall l, Permutation l (sort_desc l).

Lemma similarities_fold (s : SimpleVectorStore Vec) (q : Vec) :
  fold_left
    (fun similarities '(i, vector) =>
       match vector with
       | Some v => similarities ++ [(i, cosine q v)]
       | None => similarities
       end)
    (enumerate (vectors s)) []
  = similarity_list cosine s q.
Proof.
  unfold similarity_list.
  rewrite <- (app_nil_l (flat_map _ _)), <- fold_left_append.
  apply fold_left_ext. intros acc [i [v|]] _; simpl;
    [reflexivity | now rewrite app_nil_r].
Qed.

Lemma in_similarity_list (s : SimpleVectorStore Vec) (q : Vec) (p : Z * float) :
  In p (similarity_list cosine s q) ->
  0 <= fst p < Z.of_nat (length (vectors s)) /\
  exists v, nth_error (vectors s) (Z.to_nat (fst p)) = Some (Some v) /\
            snd p = cosine q v.
Proof.
  unfold similarity_list. intros H. apply in_flat_map in H.
  destruct H as ([i [v|]] & Hin & Hp); simpl in Hp; [|easy].
  destruct Hp as [<-|[]]. simpl. apply in_enumerate in Hin.
  destruct Hin as (Hi & Hnth). split; [exact Hi|]. now exists v.
Qed.


Lemma collect_results (s : SimpleVectorStore Vec) (l : list (Z * float))
      (acc : list search_result) :
  length (metadata s) = length (documents s) ->
  Forall (fun p => 0 <= fst p < Z.of_nat (length (documents s))) l ->
  fold_left
    (fun results '(i, score) =>
       results <- results ;;
       doc <- list_get (documents s) i ;;
       meta <- list_get (metadata s) i ;;
       Ok (results ++ [mkResult doc score meta]))
    l (Ok acc)
  = Ok (acc ++ map (result_at s) l).
Proof.
  intros Hm. revert acc. induction l as [|[i sc] l IH]; intros acc Hl; simpl.
  - now rewrite app_nil_r.
  - inversion Hl as [|? ? Hi Hl']; subst. simpl in Hi.
    rewrite (list_get_ok (documents s) i []) by exact Hi. simpl.
    rewrite (list_get_ok (metadata s) i []) by (rewrite Hm; exact Hi). simpl.
    rewrite IH by exact Hl'. now rewrite <- app_assoc.
Qed.

(** On an aligned store [search] raises nothing: its results are built
    from the first [top_k] sorted similarities. *)
Lemma search_aligned (s : SimpleVectorStore Vec) (q : Vec) (top_k : Z) :
  aligned s ->
  search cosine sort_desc s q top_k
  = Ok (map (result_at s)
            (slice (sort_desc (similarity_list cosine s q)) 0 top_k)).
Proof.
  intros (Hv & Hm). unfold search.
  destruct (vectors s) as [|v vs] eqn:Ev.
  - assert (E : similarity_list cosine s q = [])
      by (unfold similarity_list; now rewrite Ev).
    rewrite E.
    assert (E' : sort_desc [] = [])
      by (apply Permutation_nil, sort_desc_perm).
    rewrite E'. unfold slice. simpl. now rewrite firstn_nil.
  - destruct (documents s) as [|d ds] eqn:Ed; [simpl in Hv; discriminate|].
    rewrite <- Ev, <- Ed. rewrite <- Ed in Hm. rewrite <- Ev, <- Ed in Hv.
    rewrite similarities_fold.
    rewrite collect_results; [reflexivity | exact Hm |].
    apply Forall_forall. intros p Hp. apply in_slice in Hp.
    apply (Permutation_in _ (Permutation_sym (sort_desc_perm _))) in Hp.
    apply in_similarity_list in Hp. rewrite <- Hv. apply Hp.
Qed.

End SearchFacts.

Lemma stable_sort_desc_perm (l : list (Z * float)) :
  Permutation l (stable_sort_desc l).
Proof.
  induction l as [|x l IH]; simpl; [constructor|].
  transitivity (x :: stable_sort_desc l); [now apply perm_skip|].
  clear IH. induction (stable_sort_desc l) as [|y l' IH]; simpl;
    [reflexivity|].
  destruct (PrimFloat.ltb (snd x) (snd y)); [|reflexivity].
  rewrite perm_swap. now apply perm_skip.
Qed.



(** X10: on an aligned store every search result is assembled from one
    index of the store: its document, its metadata and the vector its
    score was computed from are the three entries at that index. *)
Theorem search_results_from_one_index :
  forall (Vec : Type) (cosine : Vec -> Vec -> float)
         (sort_desc : list (Z * float) -> list (Z * float))
         (self : SimpleVectorStore Vec) (query_vector : Vec) (top_k : Z)
         (results : list search_result),
    (forall l, Permutation l (sort_desc l)) ->
    aligned self ->
    search cosine sort_desc self query_vector top_k = Ok results ->
    Forall (fun r =>
              exists (i : nat) (v : Vec),
                nth_error (vectors self) i = Some (Some v) /\
                nth_error (documents self) i = Some (document r) /\
                nth_error (metadata self) i = Some (result_metadata r) /\
                score r = cosine query_vector v)
           results.
Proof.
  intros Vec cosine sort_desc s q top_k results Hperm Hal Hs.
  rewrite (search_aligned cosine sort_desc Hperm s q top_k Hal) in Hs.
  injection Hs as <-. destruct Hal as (Hv & Hm).
  apply Forall_forall. intros r Hr. apply in_map_iff in Hr.
  destruct Hr as (p & <- & Hp). apply in_slice in Hp.
  apply (Permutation_in _ (Permutation_sym (Hperm _))) in Hp.
  apply in_similarity_list in Hp. destruct Hp as (Hi & v & Hnth & Hsc).
  exists (Z.to_nat (fst p)), v. simpl.
  repeat split; [exact Hnth | | | exact Hsc];
    apply nth_error_nth'; lia.
Qed.

Lemma search_results_from_one_index_witness :
  Forall (fun r =>
            exists (i : nat) (v : float),
              nth_error [Some 2; None; Some 3]%float i = Some (Some v) /\
              nth_error [lit "a"; lit "b"; lit "c"] i = Some (document r) /\
              nth_error [[]; []; []] i = Some (result_metadata r) /\
              score r = PrimFloat.mul 1 v)
         [mkResult (lit "c") 3 []; mkResult (lit "a") 2 []].
Proof.
  apply (search_results_from_one_index
           float PrimFloat.mul stable_sort_desc
           (mkStore 1536 [Some 2; None; Some 3]%float
                    [lit "a"; lit "b"; lit "c"] [[]; []; []])
           1%float 5 _ stable_sort_desc_perm).
  - split; reflexivity.
  - vm_compute. reflexivity.
Defined.

(** ** [calculate_chunk_values] and [process_document] *)

Lemma range_0_seq (n : nat) :
  range 0 (Z.of_nat n) = map Z.of_nat (seq 0 n).
Proof.
  unfold range. now rewrite Z.sub_0_r, Nat2Z.id.
Qed.

Lemma range_0_length (n : nat) : length (range 0 (Z.of_nat n)) = n.
Proof.
  now rewrite range_0_seq, length_map, length_seq.
Qed.








(** X11: whenever [calculate_chunk_values] returns, it returns one value
    per chunk, whatever the store holds. *)
Theorem chunk_values_one_per_chunk :
  forall (Vec : Type) (cosine : Vec -> Vec -> float)
         (sort_desc : list (Z * float) -> list (Z * float))
         (embed_batch : list str -> list Vec)
         (query : str) (chunks : list str)
         (vector_store : SimpleVectorStore Vec)
         (irrelevant_chunk_penalty : float) (chunk_values : list float),
    calculate_chunk_values cosine sort_desc embed_batch query chunks
                           vector_store irrelevant_chunk_penalty
    = Ok chunk_values ->
    length chunk_values = length chunks.
Proof.
  intros Vec cosine sort_desc embed_batch query chunks s penalty values H.
  unfold calculate_chunk_values in H.
  apply bind_ok in H. destruct H as (q & _ & H).
  apply bind_ok in H. destruct H as (results & _ & H).
  apply bind_ok in H. destruct H as (scores & _ & H).
  injection H as <-.
  rewrite (fold_left_append
             (fun i => [PrimFloat.sub
                          (dict_get_default meta_value_eqb scores (MInt i)
                                            0%float)
                          penalty])).
  simpl. now rewrite flat_map_singleton, length_map, range_0_length.
Qed.

Lemma chunk_values_one_per_chunk_witness :
  length [-0x1p-1; -0x1p-1]%float = length [lit "a"; lit "b"].
Proof.
  apply (chunk_values_one_per_chunk
           float PrimFloat.mul stable_sort_desc
           (map (fun _ => 1%float))
           (lit "q") [lit "a"; lit "b"] (new_store 1536) 0x1p-1%float).
  vm_compute. reflexivity.
Defined.

Lemma zip3_full {A B C : Type} (a : list A) (b : list B) (c : list C) :
  length b = length a -> length c = length a ->
  map (fun t => fst (fst t)) (zip3 a b c) = a /\
  map (fun t => snd (fst t)) (zip3 a b c) = b /\
  map (fun t => snd t) (zip3 a b c) = c.
Proof.
  intros Hb Hc. destruct (zip3_projections a b c) as (-> & -> & ->).
  rewrite zip3_length, Hb, Hc, !Nat.min_id.
  rewrite firstn_all. rewrite <- Hb at 1. rewrite firstn_all.
  rewrite <- Hc. now rewrite firstn_all.
Qed.

Lemma add_documents_full {Vec : Type} (self : SimpleVectorStore Vec)
      (docs : list str) (vecs : list (option Vec)) (metas : list metadata_dict) :
  length vecs = length docs -> length metas = length docs ->
  add_documents self docs (Some vecs) (Some metas)
  = mkStore (dimension self) (vectors self ++ vecs) (documents self ++ docs)
            (metadata self ++ metas).
Proof.
  intros Hv Hm. unfold add_documents. rewrite add_documents_fold.
  now destruct (zip3_full docs vecs metas Hv Hm) as (-> & -> & ->).
Qed.

Section Pipeline.

Context {Vec : Type}.
Variable cosine : Vec -> Vec -> float.
Variable sort_desc : list (Z * float) -> list (Z * float).
Hypothesis sort_desc_perm : forall l, Permutation l (sort_desc l).
Variable embed : str -> Vec.
Variable embed_batch : list str -> list Vec.
Hypothesis embed_batch_each : forall batch, embed_batch batch = map embed batch.
Variable extract_text_from_pdf : str -> str.

Lemma create_embeddings_each (texts : list str) :
  create_embeddings embed_batch texts = map embed texts.
Proof.
  rewrite create_embeddings_windows, flat_map_concat_map.
  rewrite (map_ext _ (map embed) embed_batch_each), <- concat_map.
  f_equal. rewrite concat_windows. apply firstn_all2.
  pose proof (Z.mul_succ_div_gt (Z.of_nat (length texts) + 100 - 1) 100
                                ltac:(lia)).
  assert (0 <= (Z.of_nat (length texts) + 100 - 1) / 100)
    by (apply Z.div_pos; lia).
  lia.
Qed.

Lemma process_document_result (pdf_path : str) (chunk_size : Z)
      (chunks : list str) :
  chunk_text (extract_text_from_pdf pdf_path) chunk_size 0 = Ok chunks ->
  process_document embed_batch extract_text_from_pdf pdf_path chunk_size
  = Ok (chunks, store_of_chunks embed pdf_path chunks, (chunks, pdf_path)).
Proof.
  intros Hc. unfold process_document. rewrite Hc.
  cbv beta iota delta [bind].
  rewrite create_embeddings_each, map_map.
  rewrite add_documents_full;
    [reflexivity | now rewrite length_map
     | now rewrite length_map, range_0_length].
Qed.




End Pipeline.


Lemma store_of_chunks_aligned {Vec : Type} (embed : str -> Vec)
      (pdf_path : str) (chunks : list str) :
  aligned (store_of_chunks embed pdf_path chunks).
Proof.
  unfold aligned; simpl. now rewrite !length_map, range_0_length.
Qed.

(** X12: [process_document] raises [ValueError] for a chunk size of zero
    and indexes nothing for a negative one.  For a chunk size of at least
    one, and an endpoint that returns one embedding per text, it returns
    chunks whose concatenation is the extracted text and a store that
    holds every chunk, in order, with the embedding of that chunk and with
    its position as [chunk_index]. *)
Theorem process_document_stores_every_chunk :
  forall (Vec : Type) (embed : str -> Vec)
         (embed_batch : list str -> list Vec)
         (extract_text_from_pdf : str -> str)
         (pdf_path : str) (chunk_size : Z),
    (forall batch, embed_batch batch = map embed batch) ->
    (chunk_size = 0 ->
     process_document embed_batch extract_text_from_pdf pdf_path chunk_size
     = Raise ValueError) /\
    (chunk_size < 0 ->
     process_document embed_batch extract_text_from_pdf pdf_path chunk_size
     = Ok ([], store_of_chunks embed pdf_path [], ([], pdf_path))) /\
    (1 <= chunk_size ->
     exists chunks,
       process_document embed_batch extract_text_from_pdf pdf_path chunk_size
       = Ok (chunks, store_of_chunks embed pdf_path chunks,
             (chunks, pdf_path)) /\
       concat chunks = extract_text_from_pdf pdf_path /\
       aligned (store_of_chunks embed pdf_path chunks)).
Proof.
  intros Vec embed embed_batch extract path size Hembed. repeat split.
  - intros ->. unfold process_document, chunk_text, range_step. reflexivity.
  - intros Hneg. apply process_document_result; [exact Hembed|].
    unfold chunk_text, range_step, range_elements, range_length.
    destruct (size - 0 =? 0) eqn:E; [apply Z.eqb_eq in E; lia|].
    destruct (0 <? size - 0) eqn:E1; [apply Z.ltb_lt in E1; lia|].
    destruct (Z.of_nat (length (extract path)) <? 0) eqn:E2;
      [apply Z.ltb_lt in E2; lia|].
    reflexivity.
  - intros Hsize.
    pose proof (chunk_text_windows (extract path) size 0
                                   Hsize ltac:(lia)) as Hc.
    eexists. split; [|split].
    + apply process_document_result; [exact Hembed | exact Hc].
    + replace (size - 0) with size by lia.
      rewrite concat_windows. apply firstn_all2.
      set (n := Z.of_nat (length (extract path))).
      pose proof (Z.mul_succ_div_gt (n + size - 1) size ltac:(lia)).
      assert (0 <= (n + size - 1) / size) by (apply Z.div_pos; lia).
      assert (Hcover : n <= (n + size - 1) / size * size) by lia.
      apply Nat2Z.inj_le. rewrite Nat2Z.inj_mul, !Z2Nat.id by lia.
      exact Hcover.
    + apply store_of_chunks_aligned.
Qed.

Lemma process_document_stores_every_chunk_witness :
  exists chunks,
    process_document (map (@length ascii)) (fun _ => lit "abcdefghij")
                     (lit "p.pdf") 4
    = Ok (chunks, store_of_chunks (@length ascii) (lit "p.pdf") chunks,
          (chunks, lit "p.pdf")) /\
    concat chunks = lit "abcdefghij" /\
    aligned (store_of_chunks (@length ascii) (lit "p.pdf") chunks).
Proof.
  refine (proj2 (proj2 (process_document_stores_every_chunk
                          nat (@length ascii) (map (@length ascii))
                          (fun _ => lit "abcdefghij") (lit "p.pdf") 4 _)) _).
  - reflexivity.
  - lia.
Defined.



(** ** More on the selector *)

Lemma fold_left_prefix_invariant {A B : Type} (f : A -> B -> A)
      (P : list B -> A -> Prop) (l : list B) (a : A) :
  P [] a ->
  (forall pre x acc, In x l -> P pre acc -> P (pre ++ [x]) (f acc x)) ->
  P l (fold_left f l a).
Proof.
  intros H0 Hstep.
  assert (H : forall suf pre acc,
             (forall x, In x suf -> In x l) ->
             P pre acc -> P (pre ++ suf) (fold_left f suf acc)).
  { induction suf as [|x suf IH]; intros pre acc Hsub Hacc; simpl.
    - now rewrite app_nil_r.
    - replace (pre ++ x :: suf) with ((pre ++ [x]) ++ suf)
        by now rewrite <- app_assoc.
      apply IH; [intros y Hy; apply Hsub; now right|].
      apply Hstep; [apply Hsub; now left | exact Hacc]. }
  apply (H l [] a); auto.
Qed.

Lemma existsb_perm {A : Type} (f : A -> bool) (l l' : list A) :
  Permutation l l' -> existsb f l = existsb f l'.
Proof.
  induction 1 as [|x l l' _ IH|x y l|l l' l'' _ IH1 _ IH2]; simpl.
  - reflexivity.
  - now rewrite IH.
  - now destruct (f x), (f y).
  - now rewrite IH1.
Qed.

Lemma admissible_perm {V : Type} (chunk_values : list V)
      (max_segment_length : Z) (l l' : list segment) (w : segment) :
  Permutation l l' ->
  admissible chunk_values max_segment_length l w ->
  admissible chunk_values max_segment_length l' w.
Proof.
  intros Hp (Hwf & Hs & He). unfold admissible, start_in_selected,
                               end_in_selected in *.
  rewrite <- (existsb_perm _ _ _ Hp), <- (existsb_perm _ _ _ Hp) at 1.
  auto.
Qed.

Section RoundOptimum.

Context {V : Type} {N : Numeric V}.
Variable chunk_values : list V.
Variable max_segment_length : Z.
Variable min_segment_value : V.
Variable accepted : list segment.

Local Abbreviation n_chunks := (Z.of_nat (length chunk_values)).
Local Abbreviation adm :=
  (admissible chunk_values max_segment_length accepted).

(** The update of [(best_score, best_segment)] by the window [w]. *)
Local Abbreviation update := (fun (b : best V) (w : segment) =>
  if py_gt (py_sum (slice chunk_values (fst w) (snd w))) (fst b)
  then (py_sum (slice chunk_values (fst w) (snd w)), Some w)
  else b).

(** A round applies [update] for every admissible window: a property
    that each update establishes for its window and keeps for the windows
    before holds of the outcome for all admissible windows. *)
Lemma search_round_scan (P : best V -> segment -> Prop) :
  (forall b w, adm w ->
               P (update b w) w /\
               forall w', P b w' -> P (update b w) w') ->
  forall w, adm w ->
            P (search_round chunk_values max_segment_length
                            min_segment_value accepted) w.
Proof.
  intros Hstep.
  assert (Houter :
            forall w, adm w -> In (fst w) (range 0 n_chunks) ->
                      P (search_round chunk_values max_segment_length
                                      min_segment_value accepted) w).
  { unfold search_round.
    refine (fold_left_prefix_invariant
              (try_start chunk_values max_segment_length accepted)
              (fun pre b => forall w, adm w -> In (fst w) pre -> P b w)
              _ _ _ _).
    - intros w _ [].
    - intros pre start b Hstart Hb. apply in_range in Hstart.
      unfold try_start.
      destruct (start_in_selected accepted start) eqn:Estart.
      + intros w Hw Hin. apply in_app_or in Hin.
        destruct Hin as [Hin|[Heq|[]]]; [now apply Hb|].
        destruct Hw as (_ & Hs & _). congruence.
      + set (lens := range 1 (Z.min max_segment_length (n_chunks - start) + 1)).
        assert (Hinner :
                  forall w, adm w ->
                            In (fst w) pre \/
                            (fst w = start /\ In (snd w - start) lens) ->
                            P (fold_left
                                 (try_length chunk_values accepted start)
                                 lens b) w).
        { refine (fold_left_prefix_invariant
                    (try_length chunk_values accepted start)
                    (fun seen b' =>
                       forall w, adm w ->
                                 In (fst w) pre \/
                                 (fst w = start /\ In (snd w - start) seen) ->
                                 P b' w)
                    _ _ _ _).
          - intros w Hw [Hin|(_ & [])]. now apply Hb.
          - intros seen len b' Hlen Hb' w Hw Hin.
            apply in_range in Hlen. unfold try_length.
            destruct (end_in_selected accepted (start + len)) eqn:Eend.
            + destruct Hin as [Hin|(Hs & Hin)]; [apply Hb'; auto|].
              apply in_app_or in Hin. destruct Hin as [Hin|[Heq|[]]];
                [apply Hb'; auto|].
              destruct Hw as (_ & _ & He).
              replace (start + len) with (snd w) in Eend by lia.
              congruence.
            + assert (Hc : adm (start, start + len)).
              { unfold admissible, well_formed. simpl.
                repeat split; try lia; assumption. }
              destruct (Hstep b' (start, start + len) Hc) as (Hnew & Hold).
              simpl in Hnew, Hold.
              destruct Hin as [Hin|(Hs & Hin)]; [apply Hold, Hb'; auto|].
              apply in_app_or in Hin. destruct Hin as [Hin|[Heq|[]]];
                [apply Hold, Hb'; auto|].
              replace w with (start, start + len); [exact Hnew|].
              destruct w as [s e]. simpl in *. f_equal; lia. }
        intros w Hw Hin. apply Hinner; [exact Hw|].
        apply in_app_or in Hin. destruct Hin as [Hin|[Heq|[]]]; [now left|].
        right. split; [now symmetry|]. apply in_range.
        destruct Hw as ((? & ? & ? & ?) & _). lia. }
  intros w Hw. apply Houter; [exact Hw|].
  apply in_range. destruct Hw as ((? & ? & ? & ?) & _). lia.
Qed.

(** A round that finds nothing saw no admissible window above the
    threshold. *)
Lemma search_round_none_below :
  snd (search_round chunk_values max_segment_length min_segment_value accepted)
  = None ->
  forall w, adm w ->
            py_gt (py_sum (slice chunk_values (fst w) (snd w)))
                  min_segment_value = false.
Proof.
  intros Hnone w Hw.
  pose proof (search_round_ok chunk_values max_segment_length
                              min_segment_value accepted) as Hok.
  unfold candidate_ok in Hok. rewrite Hnone in Hok.
  revert Hnone. rewrite <- Hok at 2.
  revert w Hw.
  apply (search_round_scan
           (fun b w => snd b = None ->
                       py_gt (py_sum (slice chunk_values (fst w) (snd w)))
                             (fst b) = false)).
  intros b w Hw.
  destruct (py_gt (py_sum (slice chunk_values (fst w) (snd w))) (fst b)) eqn:E;
    simpl; split; auto; discriminate.
Qed.

(** With a [>] that compares like numbers, no admissible window is above
    the best score of the round. *)
Lemma search_round_maximal {L : NumericLaws V} {T : NumericTotal V} :
  forall w, adm w ->
            py_gt (py_sum (slice chunk_values (fst w) (snd w)))
                  (fst (search_round chunk_values max_segment_length
                                     min_segment_value accepted)) = false.
Proof.
  apply (search_round_scan
           (fun b w => py_gt (py_sum (slice chunk_values (fst w) (snd w)))
                             (fst b) = false)).
  intros b w Hw.
  destruct (py_gt (py_sum (slice chunk_values (fst w) (snd w))) (fst b)) eqn:E;
    simpl; split; auto.
  - apply py_gt_irrefl.
  - intros w' Hw'. eapply py_gt_not_above; eassumption.
Qed.

End RoundOptimum.

Lemma SFltb_not_above (x y z : spec_float) :
  SFltb y x = false -> SFltb y z = true -> SFltb z x = false.
Proof.
  unfold SFltb, SFcompare.
  destruct x as [sx|sx| |sx mx ex], y as [sy|sy| |sy my ey],
           z as [sz|sz| |sz mz ez];
    try destruct sx; try destruct sy; try destruct sz;
    simpl; try easy;
    repeat match goal with
           | |- context [Z.compare ?a ?b] => destruct (Z.compare_spec a b)
           | |- context [Pos.compare_cont Eq ?a ?b] =>
               change (Pos.compare_cont Eq a b) with (Pos.compare a b);
               destruct (Pos.compare_spec a b)
           end;
    simpl; intros; try easy; lia.
Qed.

Lemma float_total : @NumericTotal float float_numeric.
Proof.
  split; simpl. intros x y z. rewrite !ltb_spec. apply SFltb_not_above.
Qed.

Lemma int_total : @NumericTotal Z int_numeric.
Proof.
  split; simpl. intros x y z. rewrite !Z.gtb_ltb, Z.ltb_lt, !Z.ltb_ge. lia.
Qed.

(** X14: each round is exhaustive: the segment it accepts is an admissible
    window, scored by its own sum, and no admissible window of that round
    has a sum above it.  ([>] is assumed to compare like numbers, as it
    does on [int] and [float].) *)
Theorem round_accepts_a_maximal_window :
  forall (V : Type) (N : Numeric V) (L : NumericLaws V) (T : NumericTotal V)
         (chunk_values : list V) (max_segment_length : Z)
         (min_segment_value : V) (accepted : list segment)
         (best_score : V) (best_segment : segment),
    search_round chunk_values max_segment_length min_segment_value accepted
    = (best_score, Some best_segment) ->
    admissible chunk_values max_segment_length accepted best_segment /\
    best_score
    = py_sum (slice chunk_values (fst best_segment) (snd best_segment)) /\
    forall w,
      admissible chunk_values max_segment_length accepted w ->
      py_gt (py_sum (slice chunk_values (fst w) (snd w))) best_score = false.
Proof.
  intros V N L T values M m accepted score seg Es.
  pose proof (search_round_found _ _ _ _ _ _ Es) as (Hwf & Hs & He & Hsc).
  split; [exact (conj Hwf (conj Hs He))|]. split; [exact Hsc|].
  intros w Hw.
  pose proof (search_round_maximal values M m accepted w Hw) as Hmax.
  now rewrite Es in Hmax.
Qed.

Lemma round_accepts_a_maximal_window_witness :
  py_gt (py_sum (slice scenario_values (fst (2, 4)) (snd (2, 4)))) f1_9_up
  = false.
Proof.
  refine (proj2 (proj2 (round_accepts_a_maximal_window
                          float float_numeric float_laws float_total
                          scenario_values 3 f0_15 [] f1_9_up (1, 4)
                          eq_refl))
                (2, 4) _).
  unfold admissible, well_formed. simpl. repeat split; lia.
Defined.

(** X15: the selector stops only when it must: when the call returns,
    either the covered length has reached [total_max_length], or no window
    that the two overlap tests would let through, given the returned
    segments, has a sum above [min_segment_value]. *)
Theorem selection_stops_only_when_saturated :
  forall (V : Type) (N : Numeric V) (chunk_values : list V)
         (max_segment_length total_max_length : Z) (min_segment_value : V)
         (fuel : nat) (segments : list segment) (scores : list V),
    find_best_segments chunk_values max_segment_length total_max_length
                       min_segment_value fuel = Some (segments, scores) ->
    total_max_length <= total_length segments \/
    forall w,
      admissible chunk_values max_segment_length segments w ->
      py_gt (py_sum (slice chunk_values (fst w) (snd w))) min_segment_value
      = false.
Proof.
  intros V N values M T m fuel segments scores H.
  apply find_best_segments_selection in H.
  destruct H as (st & Hsel & [= -> ->]).
  pose proof (selection_state_ok _ _ _ _ _ _ Hsel) as (_ & Htot & _).
  pose proof (sorted_by_start_perm (best_segments st)) as Hperm.
  destruct (while_loop_exit _ _ _ _ _ _ _ Hsel) as [Hcap|Hnone].
  - left. rewrite <- (total_length_perm _ _ Hperm). lia.
  - right. intros w Hw.
    apply (search_round_none_below values M m (best_segments st) Hnone).
    eapply admissible_perm; [apply Permutation_sym, Hperm | exact Hw].
Qed.

Lemma selection_stops_only_when_saturated_witness :
  py_gt (py_sum (slice scenario_values (fst (0, 1)) (snd (0, 1)))) f0_15
  = false.
Proof.
  destruct (selection_stops_only_when_saturated
              float float_numeric scenario_values 3 5 f0_15 2%nat
              [(1, 4)] [f1_9_up] eq_refl) as [Hcap|Hnone].
  - exfalso. vm_compute in Hcap. now apply Hcap.
  - apply Hnone. unfold admissible, well_formed. simpl. repeat split; lia.
Defined.

(** X16: two returned segments can share a chunk only by enclosure: if a
    chunk index lies in two different returned segments, one of them
    strictly contains the other on both sides.  Segments that overlap
    partially are never returned. *)
Theorem returned_overlap_is_enclosure :
  forall (V : Type) (N : Numeric V) (chunk_values : list V)
         (max_segment_length total_max_length : Z) (min_segment_value : V)
         (fuel : nat) (segments : list segment) (scores : list V)
         (a b : segment) (i : Z),
    find_best_segments chunk_values max_segment_length total_max_length
                       min_segment_value fuel = Some (segments, scores) ->
    In a segments -> In b segments -> a <> b ->
    covers a i -> covers b i ->
    (fst a < fst b /\ snd b < snd a) \/ (fst b < fst a /\ snd a < snd b).
Proof.
  intros V N values M T m fuel segments scores a b i H Ha Hb Hne Hai Hbi.
  apply find_best_segments_selection in H.
  destruct H as (st & Hsel & [= -> ->]).
  pose proof (found_segments_endpoints_outside _ _ _ _ _ _ Hsel) as Hout.
  pose proof (Permutation_sym (sorted_by_start_perm (best_segments st)))
    as Hperm.
  apply (Permutation_in _ Hperm) in Ha.
  apply (Permutation_in _ Hperm) in Hb.
  destruct (ForallOrdPairs_In Hout a b Ha Hb) as [E|[Hab|Hba]];
    [contradiction | right | left].
  - exact (shared_chunk_is_enclosure a b i Hab Hai Hbi).
  - exact (shared_chunk_is_enclosure b a i Hba Hbi Hai).
Qed.

Lemma returned_overlap_is_enclosure_witness :
  (fst (0, 3) < fst (1, 2) /\ snd (1, 2) < snd (0, 3)) \/
  (fst (1, 2) < fst (0, 3) /\ snd (0, 3) < snd (1, 2)).
Proof.
  apply (returned_overlap_is_enclosure
           float float_numeric [-1; 5; -1]%float 3 5 0%float 3
           [(0, 3); (1, 2)] [5; 3]%float (0, 3) (1, 2) 1 eq_refl);
    try (simpl; tauto); try (unfold covers; simpl; lia).
  discriminate.
Defined.

(** ** [reconstruct_segments] and [format_segments_for_context] *)

Lemma reconstruct_segments_map (chunks : list str) (segments : list segment) :
  reconstruct_segments chunks segments
  = map (fun s => mkSegment (join (lit " ") (slice chunks (fst s) (snd s))) s)
        segments.
Proof.
  unfold reconstruct_segments.
  rewrite fold_left_ext with
    (g := fun acc s =>
            acc ++ [mkSegment (join (lit " ") (slice chunks (fst s) (snd s))) s]).
  - rewrite fold_left_append. simpl. apply flat_map_singleton.
  - now intros acc [start end_] _.
Qed.

Lemma Forall2_map_right {A B : Type} (R : A -> B -> Prop) (g : A -> B)
      (l : list A) :
  Forall (fun x => R x (g x)) l -> Forall2 R l (map g l).
Proof.
  induction 1; simpl; constructor; auto.
Qed.

Lemma returned_segments_well_formed {V : Type} {N : Numeric V}
      (chunk_values : list V) (max_segment_length total_max_length : Z)
      (min_segment_value : V) (fuel : nat) (segments : list segment)
      (scores : list V) :
  find_best_segments chunk_values max_segment_length total_max_length
                     min_segment_value fuel = Some (segments, scores) ->
  Forall (well_formed (Z.of_nat (length chunk_values)) max_segment_length)
         segments.
Proof.
  intros H. apply find_best_segments_selection in H.
  destruct H as (st & Hsel & [= -> ->]).
  apply selection_state_ok in Hsel. destruct Hsel as (Hwf & _).
  eapply Permutation_Forall; [apply sorted_by_start_perm | exact Hwf].
Qed.

(** X17: reconstruction of what the selector returns, for as many chunks
    as chunk values: the reconstructed segments come in the order of the
    returned segments, each with its range, and the text of each is the
    join, with single spaces, of exactly [end - start] chunks, those at the
    indices [start .. end - 1]; that number is at least one and at most
    [max_segment_length]. *)
Theorem reconstruct_selected_segments :
  forall (V : Type) (N : Numeric V) (chunk_values : list V)
         (max_segment_length total_max_length : Z) (min_segment_value : V)
         (fuel : nat) (chunks : list str)
         (segments : list segment) (scores : list V),
    length chunks = length chunk_values ->
    find_best_segments chunk_values max_segment_length total_max_length
                       min_segment_value fuel = Some (segments, scores) ->
    Forall2
      (fun seg r =>
         segment_range r = seg /\
         exists parts,
           text r = join (lit " ") parts /\
           Z.of_nat (length parts) = snd seg - fst seg /\
           1 <= Z.of_nat (length parts) <= max_segment_length /\
           forall k, (k < length parts)%nat ->
                     nth_error parts k
                     = nth_error chunks (Z.to_nat (fst seg) + k))
      segments (reconstruct_segments chunks segments).
Proof.
  intros V N values M T m fuel chunks segments scores Hlen H.
  apply returned_segments_well_formed in H.
  rewrite reconstruct_segments_map. apply Forall2_map_right.
  eapply Forall_impl; [|exact H].
  intros [s e] (Hs & Hlt & He & Hcap). simpl in *.
  split; [reflexivity|].
  exists (slice chunks s e). split; [reflexivity|].
  rewrite slice_nonneg by lia.
  assert (Hparts : length (firstn (Z.to_nat (e - s))
                                  (skipn (Z.to_nat s) chunks))
                   = Z.to_nat (e - s))
    by (rewrite length_firstn, length_skipn; lia).
  unfold str in *. rewrite Hparts. repeat split; try lia.
  intros k Hk. now apply nth_error_firstn_skipn.
Qed.

Lemma reconstruct_selected_segments_witness :
  Forall2
    (fun seg r =>
       segment_range r = seg /\
       exists parts,
         text r = join (lit " ") parts /\
         Z.of_nat (length parts) = snd seg - fst seg /\
         1 <= Z.of_nat (length parts) <= 3 /\
         forall k, (k < length parts)%nat ->
                   nth_error parts k
                   = nth_error [lit "a"; lit "b"; lit "c"; lit "d"; lit "e"]
                               (Z.to_nat (fst seg) + k))
    [(1, 4)]
    (reconstruct_segments [lit "a"; lit "b"; lit "c"; lit "d"; lit "e"]
                          [(1, 4)]).
Proof.
  apply (reconstruct_selected_segments
           float float_numeric scenario_values 3 5 f0_15 2%nat
           [lit "a"; lit "b"; lit "c"; lit "d"; lit "e"]
           [(1, 4)] [f1_9_up]); reflexivity.
Defined.

(** X18: [reconstruct_segments] raises nothing on ranges that select no
    chunk: it returns one entry per range, in order and with the range
    unchanged, and the text of a range that starts at or after the end of
    the chunk list, or that ends where it starts or before, is the empty
    string. *)
Theorem reconstruct_segments_empty_ranges :
  forall (chunks : list str) (best_segments : list segment),
    map segment_range (reconstruct_segments chunks best_segments)
    = best_segments /\
    Forall (fun r =>
              0 <= fst (segment_range r) ->
              0 <= snd (segment_range r) ->
              Z.of_nat (length chunks) <= fst (segment_range r) \/
              snd (segment_range r) <= fst (segment_range r) ->
              text r = [])
           (reconstruct_segments chunks best_segments).
Proof.
  intros chunks segs. rewrite reconstruct_segments_map. split.
  - rewrite map_map. simpl. apply map_id.
  - apply Forall_forall. intros r Hr. apply in_map_iff in Hr.
    destruct Hr as ([s e] & <- & _). simpl. intros Hs He Hout.
    rewrite slice_nonneg by lia.
    destruct Hout as [Hout|Hout].
    + rewrite skipn_all2 by lia. now rewrite firstn_nil.
    + replace (Z.to_nat (e - s)) with 0%nat by lia. reflexivity.
Qed.

Lemma reconstruct_segments_empty_ranges_witness :
  Forall (fun r =>
            0 <= fst (segment_range r) ->
            0 <= snd (segment_range r) ->
            Z.of_nat (length [lit "a"; lit "b"]) <= fst (segment_range r) \/
            snd (segment_range r) <= fst (segment_range r) ->
            text r = [])
         (reconstruct_segments [lit "a"; lit "b"] [(5, 7); (1, 1)]).
Proof.
  exact (proj2 (reconstruct_segments_empty_ranges
                  [lit "a"; lit "b"] [(5, 7); (1, 1)])).
Defined.

Lemma format_segments_flat (segments : list reconstructed_segment) :
  format_segments_for_context segments
  = join [ "010"%char; "010"%char ]
         (flat_map (fun p : Z * reconstructed_segment =>
                      [segment_header (fst p) (snd p); text (snd p);
                       repeat "-"%char 80])
                   (enumerate segments)).
Proof.
  unfold format_segments_for_context. f_equal.
  rewrite fold_left_ext with
    (g := fun context (p : Z * reconstructed_segment) =>
            context ++ [segment_header (fst p) (snd p); text (snd p);
                        repeat "-"%char 80]).
  - now rewrite fold_left_append.
  - now intros acc [i seg] _.
Qed.

(** X19: the context string built from the reconstructed segments is
    empty exactly when there is no segment: when the selector returns
    nothing the model is given an empty context, and any selected segment,
    even one with an empty text, makes the context non-empty. *)
Theorem context_empty_iff_no_segment :
  forall (chunks : list str) (best_segments : list segment),
    format_segments_for_context (reconstruct_segments chunks best_segments)
    = [] <-> best_segments = [].
Proof.
  intros chunks segs. rewrite reconstruct_segments_map, format_segments_flat.
  destruct segs as [|s segs].
  - split; reflexivity.
  - split; [|discriminate]. simpl map. rewrite enumerate_seq. simpl.
    discriminate.
Qed.

(** ** [rag_with_rse] *)

Lemma find_best_segments_bounds {V : Type} {N : Numeric V}
      (chunk_values : list V) (max_segment_length total_max_length : Z)
      (min_segment_value : V) (fuel : nat) (segments : list segment)
      (scores : list V) :
  0 < total_max_length + max_segment_length ->
  find_best_segments chunk_values max_segment_length total_max_length
                     min_segment_value fuel = Some (segments, scores) ->
  total_length segments < total_max_length + max_segment_length /\
  Z.of_nat (length segments) <= Z.max 0 total_max_length.
Proof.
  intros Hcaps H. apply find_best_segments_selection in H.
  destruct H as (st & Hsel & [= -> ->]).
  pose proof (sorted_by_start_perm (best_segments st)) as Hperm.
  rewrite <- (total_length_perm _ _ Hperm), <- (Permutation_length Hperm).
  pose proof (selection_state_ok _ _ _ _ _ _ Hsel) as (_ & <- & _).
  assert (Hinv :
            total_included_chunks st < total_max_length + max_segment_length /\
            Z.of_nat (length (best_segments st)) <= Z.max 0 total_max_length /\
            Z.of_nat (length (best_segments st)) <= total_included_chunks st);
    [|now destruct Hinv as (? & ? & _)].
  revert Hsel. unfold selection.
  apply while_loop_invariant with
    (P := fun s =>
            total_included_chunks s < total_max_length + max_segment_length /\
            Z.of_nat (length (best_segments s)) <= Z.max 0 total_max_length /\
            Z.of_nat (length (best_segments s)) <= total_included_chunks s).
  - intros s score seg (_ & _ & Hle) Hlt Es.
    pose proof (accept_progress _ _ _ s score seg Es) as Hp.
    apply search_round_found in Es.
    destruct Es as ((_ & _ & _ & Hlen) & _).
    simpl in *. rewrite length_app. simpl. lia.
  - simpl. lia.
Qed.

Lemma find_best_segments_returns {V : Type} {N : Numeric V}
      (chunk_values : list V) (max_segment_length total_max_length : Z)
      (min_segment_value : V) (extra : nat) :
  find_best_segments chunk_values max_segment_length total_max_length
                     min_segment_value
                     (S (Z.to_nat total_max_length) + extra) <> None.
Proof.
  destruct (while_loop_terminates chunk_values max_segment_length
                                  total_max_length min_segment_value
                                  (S (Z.to_nat total_max_length) + extra)
                                  initial_state) as (st & Hst);
    [simpl; lia|].
  unfold find_best_segments, selection. now rewrite Hst.
Qed.

(** X20: [rag_with_rse] always gets an answer from the selector (the
    selection loop ends within 31 evaluations of its condition), and when
    it returns a result, the result carries the query, at most 30
    segments, each joining between 1 and 20 chunks, and fewer than 50
    chunks in all: the total cap of 30 passed to the selector bounds the
    number of segments, while the number of chunks can pass it by up to
    19. *)
Theorem rag_with_rse_context_budget :
  forall (Vec : Type) (cosine : Vec -> Vec -> float)
         (sort_desc : list (Z * float) -> list (Z * float))
         (embed_batch : list str -> list Vec)
         (extract_text_from_pdf : str -> str)
         (generate_response : str -> str -> str)
         (pdf_path query : str) (chunk_size : Z)
         (irrelevant_chunk_penalty : float),
    (forall extra,
        rag_with_rse cosine sort_desc embed_batch extract_text_from_pdf
                     generate_response (31 + extra) pdf_path query chunk_size
                     irrelevant_chunk_penalty <> None) /\
    (forall fuel result,
        rag_with_rse cosine sort_desc embed_batch extract_text_from_pdf
                     generate_response fuel pdf_path query chunk_size
                     irrelevant_chunk_penalty = Some (Ok result) ->
        result_query result = query /\
        (length (result_segments result) <= 30)%nat /\
        total_length (map segment_range (result_segments result)) < 50 /\
        Forall (fun r => 1 <= snd (segment_range r) - fst (segment_range r)
                         <= 20)
               (result_segments result)).
Proof.
  intros Vec cosine sort_desc embed_batch extract gen path query size penalty.
  split.
  - intros extra. unfold rag_with_rse.
    destruct (process_document embed_batch extract path size)
      as [[[chunks store] info]|e]; [|discriminate].
    destruct (calculate_chunk_values cosine sort_desc embed_batch query chunks
                                     store penalty) as [values|e];
      [|discriminate].
    destruct (find_best_segments values 20 30 f0_2 (31 + extra))
      as [[segs scores]|] eqn:E; [discriminate|].
    exfalso. exact (find_best_segments_returns values 20 30 f0_2 extra E).
  - intros fuel result. unfold rag_with_rse.
    destruct (process_document embed_batch extract path size)
      as [[[chunks store] info]|e]; [|discriminate].
    destruct (calculate_chunk_values cosine sort_desc embed_batch query chunks
                                     store penalty) as [values|e];
      [|discriminate].
    destruct (find_best_segments values 20 30 f0_2 fuel)
      as [[segs scores]|] eqn:E; [|discriminate].
    intros [= <-]. simpl.
    rewrite reconstruct_segments_map, map_map, length_map. simpl.
    rewrite map_id.
    destruct (find_best_segments_bounds values 20 30 f0_2 fuel segs scores
                                        ltac:(lia) E) as (Htot & Hcount).
    pose proof (returned_segments_well_formed _ _ _ _ _ _ _ E) as Hwf.
    unfold segment in *.
    split; [reflexivity|]. split; [lia|]. split; [lia|].
    apply Forall_forall. intros r Hr. apply in_map_iff in Hr.
    destruct Hr as (s & <- & Hs). simpl.
    rewrite Forall_forall in Hwf. destruct (Hwf s Hs) as (_ & ? & _ & ?).
    lia.
Qed.

Lemma rag_with_rse_context_budget_witness :
  (length [mkSegment (lit "abcd efgh ij") (0, 3)%Z] <= 30)%nat.
Proof.
  refine (proj1 (proj2 (proj2 (rag_with_rse_context_budget
                                 float PrimFloat.mul stable_sort_desc
                                 (map (fun s : str =>
                                         PrimFloat.of_uint63
                                           (Uint63.of_Z (Z.of_nat (length s)))))
                                 (fun _ => lit "abcdefghij")
                                 (fun _ _ => lit "answer")
                                 (lit "p.pdf") (lit "qq") 4 0x1p-1%float)
                               3%nat
                               (mkRseResult (lit "qq")
                                            [mkSegment (lit "abcd efgh ij") (0, 3)]
                                            (lit "answer"))
                               _))).
  vm_compute. reflexivity.
Defined.

(** ** [semantic_search] *)

Lemma slice_map {A B : Type} (f : A -> B) (l : list A) (a b : Z) :
  slice (map f l) a b = map f (slice l a b).
Proof.
  unfold slice. now rewrite length_map, skipn_map, firstn_map.
Qed.

(** X21: [semantic_search] returns the first [k] chunks of a reordering of
    its input: no chunk is invented, duplicated or left out of the
    ranking, and for [k >= 0] it returns [min(k, len(chunks))] of them. *)
Theorem semantic_search_top_of_reordering :
  forall (Vec : Type) (create_embedding : str -> Vec)
         (cosine_similarity : Vec -> Vec -> float)
         (sort_chunks_desc : list (embedded_chunk Vec * float)
                             -> list (embedded_chunk Vec * float))
         (query : str) (chunks : list (embedded_chunk Vec)) (k : Z),
    (forall l, Permutation l (sort_chunks_desc l)) ->
    exists ranked,
      Permutation chunks ranked /\
      semantic_search create_embedding cosine_similarity sort_chunks_desc
                      query chunks k
      = slice ranked 0 k /\
      (0 <= k ->
       length (semantic_search create_embedding cosine_similarity
                               sort_chunks_desc query chunks k)
       = Nat.min (Z.to_nat k) (length chunks)).
Proof.
  intros Vec create cos sort query chunks k Hperm.
  unfold semantic_search.
  set (avg := fun chunk : embedded_chunk Vec =>
                PrimFloat.div
                  (PrimFloat.add (cos (create query) (embedding chunk))
                                 (cos (create query) (header_embedding chunk)))
                  2).
  rewrite (fold_left_append (fun chunk => [(chunk, avg chunk)])).
  simpl app. rewrite flat_map_singleton.
  set (sims := map (fun chunk => (chunk, avg chunk)) chunks).
  assert (Hranked : Permutation chunks (map fst (sort sims))).
  { rewrite <- (Permutation_map fst (Hperm sims)).
    unfold sims. rewrite map_map. simpl. now rewrite map_id. }
  exists (map fst (sort sims)). split; [exact Hranked|].
  rewrite slice_map. split; [reflexivity|].
  intros Hk. rewrite length_map, slice_nonneg by lia. simpl skipn.
  rewrite length_firstn, Z.sub_0_r.
  rewrite <- (Permutation_length (Hperm sims)).
  unfold sims. now rewrite length_map.
Qed.

Lemma stable_sort_by_score_perm {A : Type} (l : list (A * float)) :
  Permutation l (stable_sort_by_score l).
Proof.
  induction l as [|x l IH]; simpl; [constructor|].
  transitivity (x :: stable_sort_by_score l); [now apply perm_skip|].
  clear IH. induction (stable_sort_by_score l) as [|y l' IH]; simpl;
    [reflexivity|].
  destruct (PrimFloat.ltb (snd x) (snd y)); [|reflexivity].
  rewrite perm_swap. now apply perm_skip.
Qed.

Lemma semantic_search_top_of_reordering_witness :
  exists ranked,
    Permutation [mkEmbeddedChunk (lit "h1") (lit "t1") 1%float 2%float;
                 mkEmbeddedChunk (lit "h2") (lit "t2") 3%float 4%float]
                ranked /\
    semantic_search (fun _ => 1%float) PrimFloat.mul stable_sort_by_score
                    (lit "q")
                    [mkEmbeddedChunk (lit "h1") (lit "t1") 1%float 2%float;
                     mkEmbeddedChunk (lit "h2") (lit "t2") 3%float 4%float]
                    1
    = slice ranked 0 1 /\
    (0 <= 1 ->
     length (semantic_search (fun _ => 1%float) PrimFloat.mul
                             stable_sort_by_score (lit "q")
                             [mkEmbeddedChunk (lit "h1") (lit "t1")
                                              1%float 2%float;
                              mkEmbeddedChunk (lit "h2") (lit "t2")
                                              3%float 4%float]
                             1)
     = Nat.min (Z.to_nat 1) 2).
Proof.
  apply (semantic_search_top_of_reordering
           float (fun _ => 1%float) PrimFloat.mul stable_sort_by_score
           (lit "q")
           [mkEmbeddedChunk (lit "h1") (lit "t1") 1%float 2%float;
            mkEmbeddedChunk (lit "h2") (lit "t2") 3%float 4%float]
           1).
  intros l. apply stable_sort_by_score_perm.
Defined.
